(** * jack_midi_clock: MIDI beat clock generator and analyzer

    A shallow embedding of the two programs of the repository,

      - [jack_midi_clock.c]  (module [MidiClock]): the generator, whose JACK
        process callback emits Start / Continue / Stop / Song Position and
        the 24-per-quarter-note Clock ticks;
      - [jack_mclk_dump.c]   (module [MclkDump]): the analyzer, whose
        callback timestamps incoming clock bytes and whose main loop prints
        the tempo implied by consecutive timestamps.

    Conventions of the embedding.

      - C integers are [Z]; where the source relies on unsigned wrap-around
        (the 64-bit sample counters of the analyzer) the reduction modulo
        [2^64] is written out.  Signed arithmetic and the conversions
        between integers and floating-point numbers are taken in the range
        where C defines them.
      - C [double] and [float] values are idealised as exact rationals [Q]:
        no rounding, no infinities, no NaN.  A theorem that goes through a
        division states that the divisor is not 0, or the quotient
        positive; the analyzer's tempo, where a division by zero does
        happen, is an [option].  [llrint] rounds to the nearest integer,
        ties to even (the default rounding mode).  Module [Binary64]
        replays the floating-point kernels on IEEE binary64 numbers, to
        check the idealisation on the scenarios.
      - The JACK MIDI port buffer is a list of events together with the
        number of events it can still take; [jack_midi_event_reserve] fails
        as JACK's does: offset outside the cycle, offset before the last
        event written, or no room left.
      - The [while(1)] loop of the tick scheduler takes fuel; [None] means
        the fuel ran out.  With a positive tick interval enough fuel always
        exists ([tick_loop_terminates]).
      - Threads, locks and condition variables of the analyzer are not
        modelled; its ring buffer is a FIFO list with a byte capacity.
        Where the two sides of the analyzer are put together, the consumer
        takes its turn between two cycles.
      - The command line is the sequence of option characters
        [getopt_long] returns for it, with the number [atof] reads from
        the argument of [-b]; [exit] is a result of [decode_switches]. *)

From Stdlib Require Import ZArith QArith Qround Qabs List Bool Lia Lqa.
From Stdlib Require Import Floats.PrimFloat Floats.SpecFloat Floats.FloatOps.
From Stdlib Require Import Numbers.Cyclic.Int63.Uint63.
From Stdlib Require Import Ascii.
Import ListNotations.

Local Open Scope Z_scope.

(** ** Numbers *)

(** [a < b] on idealised doubles, as a boolean. *)
Definition Qltb (a b : Q) : bool := negb (Qle_bool b a).

(** [llrint]: nearest integer, ties to even. *)
Definition llrint (x : Q) : Z :=
  let f := Qfloor x in
  match (x - inject_Z f ?= 1 # 2)%Q with
  | Lt => f
  | Gt => f + 1
  | Eq => if Z.even f then f else f + 1
  end.

(** [floor] of <math.h>, as the integer it denotes. *)
Definition floor (x : Q) : Z := Qfloor x.

(** Conversion of a floating-point value to [int]: truncation toward zero. *)
Definition double_to_int (x : Q) : Z :=
  if Qle_bool 0 x then Qfloor x else Qceiling x.

(** [v & f] read as a C condition. *)
Definition flag_set (v f : Z) : bool := negb (Z.land v f =? 0).

(** ** MIDI events and the JACK port buffer *)

Record midi_event : Type := mk_event { ev_time : Z; ev_data : list Z }.

Record port_buffer : Type := mk_port_buffer {
  pb_nframes : Z;             (* cycle size the buffer was obtained for *)
  pb_room    : nat;           (* events that still fit *)
  pb_events  : list midi_event  (* events written so far, oldest first *)
}.

Definition last_event_time (pb : port_buffer) : Z :=
  match rev (pb_events pb) with
  | [] => 0
  | e :: _ => ev_time e
  end.

(** Does [jack_midi_event_reserve (port_buf, time, data_size)] return a
    buffer?  Both messages of the program are short enough to be stored
    inside JACK's event record, so that an event takes one record whatever
    its size. *)
Definition jack_midi_event_reserve (pb : port_buffer) (time data_size : Z)
  : bool :=
  (0 <=? time) && (time <? pb_nframes pb)
  && (last_event_time pb <=? time)
  && (0 <? data_size)
  && negb (Nat.eqb (pb_room pb) 0).

(** The reserved bytes, once the caller has filled them in. *)
Definition event_written (pb : port_buffer) (time : Z) (data : list Z) : port_buffer :=
  {| pb_nframes := pb_nframes pb;
     pb_room    := Nat.pred (pb_room pb);
     pb_events  := pb_events pb ++ [mk_event time data] |}.

(** [jack_port_get_buffer] followed by [jack_midi_clear_buffer]. *)
Definition jack_midi_clear_buffer (nframes : Z) (room : nat) : port_buffer :=
  {| pb_nframes := nframes; pb_room := room; pb_events := [] |}.

(** ** The generator, jack_midi_clock.c *)

Module MidiClock.

(** bitwise flags -- used w/ msg_filter *)
Definition MSG_NO_TRANSPORT  : Z := 1.
Definition MSG_NO_CLOCK      : Z := 2.
Definition MSG_NO_POSITION   : Z := 4.
Definition MSG_NO_CONT_CLOCK : Z := 8.

(** MIDI System Real-Time Messages *)
Definition MIDI_RT_CLOCK    : Z := 0xF8.
Definition MIDI_RT_START    : Z := 0xFA.
Definition MIDI_RT_CONTINUE : Z := 0xFB.
Definition MIDI_RT_STOP     : Z := 0xFC.

(** [jack_position_bits_t], from <jack/types.h>. *)
Definition JackPositionBBT    : Z := 0x10.
Definition JackBBTFrameOffset : Z := 0x40.

(** [jack_transport_state_t], from <jack/types.h>. *)
Inductive jack_transport_state_t : Type :=
| JackTransportStopped
| JackTransportRolling
| JackTransportLooping
| JackTransportStarting
| JackTransportNetStarting.

Definition xstate_eqb (a b : jack_transport_state_t) : bool :=
  match a, b with
  | JackTransportStopped, JackTransportStopped
  | JackTransportRolling, JackTransportRolling
  | JackTransportLooping, JackTransportLooping
  | JackTransportStarting, JackTransportStarting
  | JackTransportNetStarting, JackTransportNetStarting => true
  | _, _ => false
  end.

(** The fields of [jack_position_t] the program reads. *)
Record jack_position_t : Type := mk_position {
  valid            : Z;
  frame            : Z;   (* jack_nframes_t *)
  frame_rate       : Z;   (* jack_nframes_t *)
  bar              : Z;   (* int32_t *)
  beat             : Z;
  tick             : Z;
  bar_start_tick   : Q;   (* double *)
  beats_per_bar    : Q;   (* float *)
  ticks_per_beat   : Q;   (* double *)
  beats_per_minute : Q;   (* double *)
  bbt_offset       : Z    (* jack_nframes_t *)
}.

(** jack_position_t excerpt *)
Record bbtpos : Type := mk_bbtpos {
  bp_valid          : Z;
  bp_bar            : Z;
  bp_beat           : Z;
  bp_tick           : Z;
  bp_bar_start_tick : Q
}.

Inductive client_state_t : Type := Init | Run | Exit.

(** commandline options *)
Record options : Type := mk_options {
  user_bpm   : Q;
  force_bpm  : Z;
  msg_filter : Z
}.

(** application state *)
Record app_state : Type := mk_state {
  m_xstate       : jack_transport_state_t;
  mclk_last_tick : Q;
  client_state   : client_state_t;
  last_xpos      : bbtpos
}.

(** What the host hands to one invocation of the process callback: the
    cycle size, the result of [jack_transport_query], and the room of the
    output port's buffer. *)
Record cycle : Type := mk_cycle {
  cy_nframes : Z;
  cy_xstate  : jack_transport_state_t;
  cy_xpos    : jack_position_t;
  cy_room    : nat
}.

(** The globals as their initialisers leave them, with [client_state] as
    [main] sets it before the first cycle that does anything. *)
Definition initial_state : app_state :=
  {| m_xstate := JackTransportStopped;
     mclk_last_tick := 0;
     client_state := Run;
     last_xpos := mk_bbtpos 0 0 0 0 0 |}.

Definition default_options : options :=
  {| user_bpm := 0; force_bpm := 0; msg_filter := MSG_NO_CONT_CLOCK |}.

(** send 1 byte MIDI Message *)
Definition send_rt_message (port_buf : port_buffer) (time : Z) (rt_msg : Z)
  : port_buffer :=
  if jack_midi_event_reserve port_buf time 1
  then event_written port_buf time [rt_msg]
  else port_buf.

(** The 14 bit song position register: MIDI beats since the start. *)
Definition bcnt (xpos : jack_position_t) : Z :=
  double_to_int
    (4 * (inject_Z (bar xpos - 1) * beats_per_bar xpos
          + inject_Z (beat xpos - 1))
     + inject_Z (floor (4 * inject_Z (tick xpos) / ticks_per_beat xpos)))%Q.

Definition send_pos_message (o : options) (port_buf : port_buffer)
  (xpos : jack_position_t) : port_buffer :=
  if flag_set (msg_filter o) MSG_NO_POSITION then port_buf
  else if negb (flag_set (valid xpos) JackPositionBBT) then port_buf
  else
    let bcnt := bcnt xpos in
    if (bcnt <? 0) || (bcnt >=? 16384) then port_buf
    else if negb (jack_midi_event_reserve port_buf 0 3) then port_buf
    else event_written port_buf 0
           [0xf2; Z.land bcnt 0x7f; Z.land (Z.shiftr bcnt 7) 0x7f].

Definition pos_changed (xp0 : bbtpos) (xp1 : jack_position_t) : Z :=
  if negb (flag_set (bp_valid xp0) JackPositionBBT) then -1
  else if negb (flag_set (valid xp1) JackPositionBBT) then -2
  else if (bp_bar xp0 =? bar xp1) && (bp_beat xp0 =? beat xp1)
          && (bp_tick xp0 =? tick xp1) then 0
  else 1.

Definition remember_pos (xp0 : bbtpos) (xp1 : jack_position_t) : bbtpos :=
  if negb (flag_set (valid xp1) JackPositionBBT) then xp0
  else {| bp_valid := valid xp1;
          bp_bar := bar xp1;
          bp_beat := beat xp1;
          bp_tick := tick xp1;
          bp_bar_start_tick := bar_start_tick xp1 |}.

(** *** The blocks of the process callback *)

(** send position updates if stopped and located *)
Definition send_position_updates (o : options) (s : app_state) (c : cycle)
  (port_buf : port_buffer) : port_buffer :=
  if xstate_eqb (cy_xstate c) JackTransportStopped
     && xstate_eqb (cy_xstate c) (m_xstate s)
  then if pos_changed (last_xpos s) (cy_xpos c) >? 0
       then send_pos_message o port_buf (cy_xpos c)
       else port_buf
  else port_buf.

(** The [switch (xstate)] of the state edge; [case JackTransportRolling]
    falls through into [case JackTransportStarting]. *)
Definition send_start_stop_continue (o : options) (s : app_state) (c : cycle)
  (port_buf : port_buffer) : port_buffer :=
  let xpos := cy_xpos c in
  match cy_xstate c with
  | JackTransportStopped =>
      let port_buf :=
        if negb (flag_set (msg_filter o) MSG_NO_TRANSPORT)
        then send_rt_message port_buf 0 MIDI_RT_STOP
        else port_buf in
      send_pos_message o port_buf xpos
  | JackTransportRolling
  | JackTransportStarting =>
      if xstate_eqb (m_xstate s) JackTransportStarting then port_buf
      else if frame xpos =? 0 then
        if negb (flag_set (msg_filter o) MSG_NO_TRANSPORT)
        then send_rt_message port_buf 0 MIDI_RT_START
        else port_buf
      else
        if negb (flag_set (msg_filter o) MSG_NO_TRANSPORT)
        then send_rt_message port_buf 0 MIDI_RT_CONTINUE
        else port_buf
  | _ => port_buf
  end.

(** send RT messages start/stop/continue *)
Definition send_transport_messages (o : options) (s : app_state) (c : cycle)
  (port_buf : port_buffer) : app_state * port_buffer :=
  if negb (xstate_eqb (cy_xstate c) (m_xstate s)) then
    let port_buf := send_start_stop_continue o s c port_buf in
    (* initial beat tick *)
    let port_buf :=
      if xstate_eqb (cy_xstate c) JackTransportRolling
      then if negb (flag_set (msg_filter o) MSG_NO_CLOCK)
           then send_rt_message port_buf 0 MIDI_RT_CLOCK
           else port_buf
      else port_buf in
    ({| m_xstate := cy_xstate c;
        mclk_last_tick := inject_Z (frame (cy_xpos c));
        client_state := client_state s;
        last_xpos := last_xpos s |}, port_buf)
  else (s, port_buf).

(** calculate clock tick interval: [samples_per_beat] and [bbt_offset], or
    nothing when there is no tempo to follow. *)
Definition calc_samples_per_beat (o : options) (xpos : jack_position_t)
  : option (Q * Z) :=
  if negb (force_bpm o =? 0) && Qltb 0 (user_bpm o) then
    Some ((inject_Z (frame_rate xpos) * 60 / user_bpm o)%Q, 0)
  else if flag_set (valid xpos) JackPositionBBT then
    Some ((inject_Z (frame_rate xpos) * 60 / beats_per_minute xpos)%Q,
          if flag_set (valid xpos) JackBBTFrameOffset
          then bbt_offset xpos else 0)
  else if Qltb 0 (user_bpm o) then
    Some ((inject_Z (frame_rate xpos) * 60 / user_bpm o)%Q, 0)
  else None.

Definition quarter_notes_per_beat : Q := 1.

(** MIDI Beat Clock: Send 24 ticks per quarter note *)
Definition clock_tick_interval (samples_per_beat : Q) : Q :=
  let samples_per_quarter_note := (samples_per_beat / quarter_notes_per_beat)%Q in
  (samples_per_quarter_note / 24)%Q.

(** send clock ticks for this cycle *)
Fixpoint tick_loop (fuel : nat) (clock_tick_interval : Q)
  (frame bbt_offset nframes : Z) (mclk_last_tick : Q) (port_buf : port_buffer)
  : option (Q * port_buffer) :=
  match fuel with
  | O => None
  | S fuel' =>
      let next_tick := (mclk_last_tick + clock_tick_interval)%Q in
      let next_tick_offset := llrint next_tick - frame - bbt_offset in
      if next_tick_offset >=? nframes then Some (mclk_last_tick, port_buf)
      else
        let port_buf :=
          if next_tick_offset >=? 0
          then send_rt_message port_buf next_tick_offset MIDI_RT_CLOCK
          else port_buf in
        tick_loop fuel' clock_tick_interval frame bbt_offset nframes
          next_tick port_buf
  end.

Definition set_last_tick (s : app_state) (t : Q) : app_state :=
  {| m_xstate := m_xstate s;
     mclk_last_tick := t;
     client_state := client_state s;
     last_xpos := last_xpos s |}.

Definition set_last_xpos (s : app_state) (p : bbtpos) : app_state :=
  {| m_xstate := m_xstate s;
     mclk_last_tick := mclk_last_tick s;
     client_state := client_state s;
     last_xpos := p |}.

(** The tick scheduler: everything after the state edge. *)
Definition send_clock_ticks (fuel : nat) (o : options) (s : app_state)
  (c : cycle) (port_buf : port_buffer) : option (app_state * port_buffer) :=
  let xpos := cy_xpos c in
  if negb (xstate_eqb (cy_xstate c) JackTransportRolling)
     && flag_set (msg_filter o) MSG_NO_CONT_CLOCK
  then Some (s, port_buf)
  else if flag_set (msg_filter o) MSG_NO_CLOCK then Some (s, port_buf)
  else
    match calc_samples_per_beat o xpos with
    | None => Some (s, port_buf)
    | Some (samples_per_beat, bbt_offset) =>
        match tick_loop fuel (clock_tick_interval samples_per_beat)
                (frame xpos) bbt_offset (cy_nframes c)
                (mclk_last_tick s) port_buf with
        | None => None
        | Some (t, port_buf) => Some (set_last_tick s t, port_buf)
        end
    end.

(** jack process callback *)
Definition process (fuel : nat) (o : options) (s : app_state) (c : cycle)
  : option (app_state * port_buffer) :=
  let port_buf := jack_midi_clear_buffer (cy_nframes c) (cy_room c) in
  match client_state s with
  | Run =>
      let port_buf := send_position_updates o s c port_buf in
      let s := set_last_xpos s (remember_pos (last_xpos s) (cy_xpos c)) in
      let '(s, port_buf) := send_transport_messages o s c port_buf in
      send_clock_ticks fuel o s c port_buf
  | _ => Some (s, port_buf)
  end.

(** The host calling the callback once per cycle. *)
Fixpoint run (fuel : nat) (o : options) (s : app_state) (cycles : list cycle)
  : option (app_state * list port_buffer) :=
  match cycles with
  | [] => Some (s, [])
  | c :: cycles' =>
      match process fuel o s c with
      | None => None
      | Some (s1, port_buf) =>
          match run fuel o s1 cycles' with
          | None => None
          | Some (s2, bufs) => Some (s2, port_buf :: bufs)
          end
      end
  end.

(** *** Shutdown, signals and the command line *)

Definition set_client_state (s : app_state) (cs : client_state_t) : app_state :=
  {| m_xstate := m_xstate s;
     mclk_last_tick := mclk_last_tick s;
     client_state := cs;
     last_xpos := last_xpos s |}.

(** callback if jack server terminates *)
Definition jack_shutdown (s : app_state) : app_state :=
  set_client_state s Exit.

Definition catchsig (s : app_state) : app_state :=
  set_client_state s Exit.

(** The globals as their initialisers leave them: the callback is
    registered by [init_jack] while [client_state] is still [Init]. *)
Definition globals : app_state :=
  {| m_xstate := JackTransportStopped;
     mclk_last_tick := 0;
     client_state := Init;
     last_xpos := mk_bbtpos 0 0 0 0 0 |}.

(** What [getopt_long] returns for one option of the command line: the
    option character, [?] for an option it does not know, and for [-b] the
    number [atof] reads from the argument (taken finite). *)
Record getopt_result : Type := mk_getopt {
  opt_c    : ascii;
  opt_atof : Q
}.

Definition EXIT_FAILURE : Z := 1.

(** [decode_switches]: the [while] loop over the options [getopt_long]
    returns, up to [EOF].  The result is the status the program exits with
    ([-V], and [usage] for [-h] and for anything else), or the options when
    the loop ends. *)
Fixpoint decode_switches (opts : list getopt_result) (o : options)
  : Z + options :=
  match opts with
  | [] => inr o
  | r :: opts' =>
      let c := opt_c r in
      if (c =? "b")%char then
        decode_switches opts'
          {| user_bpm := opt_atof r;
             force_bpm := force_bpm o;
             msg_filter := msg_filter o |}
      else if (c =? "B")%char then
        decode_switches opts'
          {| user_bpm := user_bpm o;
             force_bpm := 1;
             msg_filter := msg_filter o |}
      else if (c =? "P")%char then
        decode_switches opts'
          {| user_bpm := user_bpm o;
             force_bpm := force_bpm o;
             msg_filter := Z.lor (msg_filter o) MSG_NO_POSITION |}
      else if (c =? "T")%char then
        decode_switches opts'
          {| user_bpm := user_bpm o;
             force_bpm := force_bpm o;
             msg_filter := Z.lor (msg_filter o) MSG_NO_TRANSPORT |}
      else if (c =? "V")%char then inl 0
      else if (c =? "h")%char then inl 0
      else inl EXIT_FAILURE
  end.

End MidiClock.

(** ** The analyzer, jack_mclk_dump.c *)

Module MclkDump.

Definition RBSIZE : Z := 20.

Record timenfo : Type := mk_timenfo {
  msg : Z;   (* uint8_t *)
  tme : Z    (* unsigned long long int *)
}.

(** [sizeof(timenfo)]: one byte, padding, one 64-bit integer. *)
Definition sizeof_timenfo : Z := 16.

(** Arithmetic on [unsigned long long] wraps at [2^64]. *)
Definition ull (z : Z) : Z := z mod 2 ^ 64.

(** What [%lld] prints for an [unsigned long long] argument. *)
Definition as_long_long (z : Z) : Z :=
  if z <? 2 ^ 63 then z else z - 2 ^ 64.

(** The JACK ring buffer, holding whole [timenfo] records: the bytes it
    can hold and the records written and not yet read, oldest first. *)
Record jack_ringbuffer_t : Type := mk_ringbuffer {
  rb_size : Z;
  rb_data : list timenfo
}.

(** [jack_ringbuffer_create (sz)]: JACK rounds the size up to a power of
    two and keeps one byte free. *)
Definition jack_ringbuffer_create (sz : Z) : jack_ringbuffer_t :=
  {| rb_size := 2 ^ Z.log2_up sz - 1; rb_data := [] |}.

Definition jack_ringbuffer_read_space (rb : jack_ringbuffer_t) : Z :=
  sizeof_timenfo * Z.of_nat (length (rb_data rb)).

Definition jack_ringbuffer_write_space (rb : jack_ringbuffer_t) : Z :=
  rb_size rb - jack_ringbuffer_read_space rb.

Definition jack_ringbuffer_write (rb : jack_ringbuffer_t) (t : timenfo)
  : jack_ringbuffer_t :=
  {| rb_size := rb_size rb; rb_data := rb_data rb ++ [t] |}.

Definition jack_ringbuffer_read (rb : jack_ringbuffer_t)
  : option (timenfo * jack_ringbuffer_t) :=
  match rb_data rb with
  | [] => None
  | t :: rest => Some (t, {| rb_size := rb_size rb; rb_data := rest |})
  end.

(** The real-time side: [monotonic_cnt] and the ring buffer. *)
Record dump_state : Type := mk_dump_state {
  monotonic_cnt : Z;
  rb : jack_ringbuffer_t
}.

Definition process_jmidi_event (ev : midi_event) (mfcnt : Z)
  (rb : jack_ringbuffer_t) : jack_ringbuffer_t :=
  if (Z.of_nat (length (ev_data ev)) =? 1) && (nth 0 (ev_data ev) 0 =? 0xf8)
  then
    let tnfo := {| msg := 0xf8; tme := ull (mfcnt + ev_time ev) |} in
    if jack_ringbuffer_write_space rb >=? sizeof_timenfo
    then jack_ringbuffer_write rb tnfo
    else rb
  else rb.

(** The events of the input port, in the order [jack_midi_event_get]
    returns them. *)
Definition process (nframes : Z) (events : list midi_event) (s : dump_state)
  : dump_state :=
  {| monotonic_cnt := ull (monotonic_cnt s + nframes);
     rb := fold_left (fun rb ev => process_jmidi_event ev (monotonic_cnt s) rb)
             events (rb s) |}.

(** One line of output, ["%.2f @ %lld"]: the tempo, or nothing when the
    division is by zero (C prints [inf] or [nan]), and the timestamp. *)
Record report : Type := mk_report {
  bpm : option Q;
  at_time : Z
}.

(** Division of idealised doubles; [None] where C leaves the finite
    numbers. *)
Definition fdiv (a b : Q) : option Q :=
  if Qeq_bool b 0 then None else Some (a / b)%Q.

(** The body of the consumer's [for] loop for one record. *)
Definition print_tick (j_samplerate : Z) (pt t : timenfo) : list report :=
  if msg t =? 0xf8 then
    let samples_per_quarter_note := (inject_Z (ull (tme t - tme pt)) * 24)%Q in
    let bpm := fdiv (inject_Z j_samplerate * 60) samples_per_quarter_note in
    [{| bpm := bpm; at_time := as_long_long (tme t) |}]
  else [].

(** [for (i=0; i < mqlen; ++i)]: read a record, report it, remember it.
    [mqlen] records are there to be read: the program has one consumer. *)
Fixpoint drain (j_samplerate : Z) (mqlen : nat) (pt : timenfo)
  (rb : jack_ringbuffer_t) : timenfo * jack_ringbuffer_t * list report :=
  match mqlen with
  | O => (pt, rb, [])
  | S mqlen' =>
      match jack_ringbuffer_read rb with
      | None => (pt, rb, [])
      | Some (t, rb') =>
          let '(pt', rb'', out) := drain j_samplerate mqlen' t rb' in
          (pt', rb'', print_tick j_samplerate pt t ++ out)
      end
  end.

(** One turn of the [while (run && j_client)] loop of [main]. *)
Definition main_loop_body (j_samplerate : Z) (pt : timenfo)
  (rb : jack_ringbuffer_t) : timenfo * jack_ringbuffer_t * list report :=
  let mqlen := jack_ringbuffer_read_space rb / sizeof_timenfo in
  drain j_samplerate (Z.to_nat mqlen) pt rb.

(** [memset(&pt, 0, sizeof(timenfo))] *)
Definition pt_zero : timenfo := {| msg := 0; tme := 0 |}.

(** *** The command line *)

(** [char newline = '\r'], and what [-n] makes of it. *)
Definition carriage_return : ascii := "013"%char.
Definition line_feed : ascii := "010"%char.

(** [decode_switches]: the loop over the options [getopt_long] returns.
    The result is the status the program exits with, or the character
    printed after each tick when the loop ends. *)
Fixpoint decode_switches (opts : list MidiClock.getopt_result)
  (newline : ascii) : Z + ascii :=
  match opts with
  | [] => inr newline
  | r :: opts' =>
      let c := MidiClock.opt_c r in
      if (c =? "n")%char then decode_switches opts' line_feed
      else if (c =? "V")%char then inl 0
      else if (c =? "h")%char then inl 0
      else inl MidiClock.EXIT_FAILURE
  end.

End MclkDump.

(** ** The floating-point kernels on IEEE binary64 numbers

    The same expressions as in [MidiClock] and [MclkDump], evaluated with
    the kernel's binary64 arithmetic (round to nearest, ties to even), which
    is the arithmetic of C [double] on the platforms JACK runs on. *)

Module Binary64.

(** Conversion of an integer to [double]; exact below [2^53], and meant for
    magnitudes below [2^63]. *)
Definition of_Z (z : Z) : float :=
  if z <? 0 then PrimFloat.opp (PrimFloat.of_uint63 (Uint63.of_Z (- z)))
  else PrimFloat.of_uint63 (Uint63.of_Z z).

(** The rational a finite binary64 number denotes. *)
Definition to_Q (f : float) : option Q :=
  match Prim2SF f with
  | S754_zero _ => Some 0%Q
  | S754_finite s m e =>
      let n := if s then Z.neg m else Z.pos m in
      Some (match e with
            | Z.neg p => n # Pos.pow 2 p
            | _ => inject_Z (n * 2 ^ e)
            end)
  | S754_infinity _ | S754_nan => None
  end.

(** [llrint] of a finite number. *)
Definition llrint (f : float) : option Z := option_map llrint (to_Q f).

(** [samples_per_beat / quarter_notes_per_beat / 24.0], from the frame rate
    and the tempo. *)
Definition clock_tick_interval (frame_rate : Z) (bpm : float) : float :=
  let samples_per_beat := PrimFloat.div (PrimFloat.mul (of_Z frame_rate) 60) bpm in
  let samples_per_quarter_note := PrimFloat.div samples_per_beat 1 in
  PrimFloat.div samples_per_quarter_note 24.

(** The [while(1)] loop of the tick scheduler. *)
Fixpoint tick_loop (fuel : nat) (clock_tick_interval : float)
  (frame bbt_offset nframes : Z) (mclk_last_tick : float)
  (port_buf : port_buffer) : option (float * port_buffer) :=
  match fuel with
  | O => None
  | S fuel' =>
      let next_tick := PrimFloat.add mclk_last_tick clock_tick_interval in
      match llrint next_tick with
      | None => None
      | Some r =>
          let next_tick_offset := r - frame - bbt_offset in
          if next_tick_offset >=? nframes then Some (mclk_last_tick, port_buf)
          else
            let port_buf :=
              if next_tick_offset >=? 0
              then MidiClock.send_rt_message port_buf next_tick_offset
                     MidiClock.MIDI_RT_CLOCK
              else port_buf in
            tick_loop fuel' clock_tick_interval frame bbt_offset nframes
              next_tick port_buf
      end
  end.

(** [j_samplerate * 60.0 / ((t.tme - pt.tme) * 24.0)] *)
Definition bpm (j_samplerate : Z) (delta : Z) : float :=
  let samples_per_quarter_note := PrimFloat.mul (of_Z delta) 24 in
  PrimFloat.div (PrimFloat.mul (of_Z j_samplerate) 60) samples_per_quarter_note.

End Binary64.

(** * Vocabulary of the statements *)

Import MidiClock.

(** A one-byte real-time message with status byte [m]. *)
Definition is_rt_msg (m : Z) (e : midi_event) : bool :=
  match ev_data e with
  | [b] => b =? m
  | _ => false
  end.

Definition count_msg (m : Z) (evs : list midi_event) : nat :=
  length (filter (is_rt_msg m) evs).

Definition is_start_or_continue (e : midi_event) : bool :=
  is_rt_msg MIDI_RT_START e || is_rt_msg MIDI_RT_CONTINUE e.

Definition count_start_continue (evs : list midi_event) : nat :=
  length (filter is_start_or_continue evs).

(** A Song Position Pointer message. *)
Definition is_song_position (e : midi_event) : bool :=
  match ev_data e with
  | b :: _ => b =? 0xf2
  | [] => false
  end.

(** The tempo the scheduler would follow is a positive number of samples
    per beat (or there is none): what makes the [while(1)] loop end. *)
Definition tempo_positive (o : options) (xpos : jack_position_t) : Prop :=
  match calc_samples_per_beat o xpos with
  | Some (samples_per_beat, _) => (0 < samples_per_beat)%Q
  | None => True
  end.

(** The tick interval of a cycle, 0 when there is no tempo. *)
Definition cycle_interval (o : options) (xpos : jack_position_t) : Q :=
  match calc_samples_per_beat o xpos with
  | Some (samples_per_beat, _) => clock_tick_interval samples_per_beat
  | None => 0
  end.

(** The cycle sees the transport enter Stopped. *)
Definition stop_edge (prev cur : jack_transport_state_t) : bool :=
  xstate_eqb cur JackTransportStopped && negb (xstate_eqb prev JackTransportStopped).

(** The cycle sees the transport enter Starting or Rolling, and the cycle
    before did not see Starting. *)
Definition start_edge (prev cur : jack_transport_state_t) : bool :=
  (xstate_eqb cur JackTransportRolling || xstate_eqb cur JackTransportStarting)
  && negb (xstate_eqb cur prev)
  && negb (xstate_eqb prev JackTransportStarting).

(** The pairs (state seen by the cycle before, state seen by this cycle)
    along a run. *)
Fixpoint edges (prev : jack_transport_state_t)
  (states : list jack_transport_state_t)
  : list (jack_transport_state_t * jack_transport_state_t) :=
  match states with
  | [] => []
  | cur :: states' => (prev, cur) :: edges cur states'
  end.




(** The event [e] is a Clock tick the scan placed: the [j]-th position
    after [last], for some [j] between 1 and [n], rounded and made relative
    to the cycle. *)
Definition scanned (d : Q) (frame bbt_offset nframes : Z) (last : Q) (n : nat)
  (e : midi_event) : Prop :=
  ev_data e = [MIDI_RT_CLOCK] /\
  0 <= ev_time e < nframes /\
  exists j : nat,
    (1 <= j <= n)%nat /\
    frame + bbt_offset + ev_time e
    = llrint (last + inject_Z (Z.of_nat j) * d)%Q.

(** The callback up to the tick scheduler: position update, cache
    refresh and state edge, on the cleared buffer. *)
Definition before_scheduler (o : options) (s : app_state) (c : cycle)
  : app_state * port_buffer :=
  send_transport_messages o
    (set_last_xpos s (remember_pos (last_xpos s) (cy_xpos c))) c
    (send_position_updates o s c
       (jack_midi_clear_buffer (cy_nframes c) (cy_room c))).


(** The transport snapshot of the scenarios: a timebase master reporting
    4/4 at [bpm], no BBT frame offset. *)
Definition bbt_position (frame : Z) (bpm : Q) (frame_rate : Z)
  : jack_position_t :=
  {| valid := JackPositionBBT; frame := frame; frame_rate := frame_rate;
     bar := 1; beat := 1; tick := 0; bar_start_tick := 0;
     beats_per_bar := 4; ticks_per_beat := 1920;
     beats_per_minute := bpm; bbt_offset := 0 |}.

(** A 512-sample cycle at 120 BPM and 48 kHz. *)
Definition scenario_cycle (xstate : jack_transport_state_t) (frame : Z)
  : cycle :=
  {| cy_nframes := 512; cy_xstate := xstate;
     cy_xpos := bbt_position frame 120 48000; cy_room := 16 |}.

(** Stopped at frame 0, then rolling for 10 consecutive cycles. *)
Definition scenario_10_cycles : list cycle :=
  scenario_cycle JackTransportStopped 0
  :: map (fun i => scenario_cycle JackTransportRolling (512 * Z.of_nat i))
       (seq 0 10).

(** The default tempo forced to 60 BPM ([-b 60 -B]). *)
Definition forced_60 : options :=
  {| user_bpm := 60; force_bpm := 1; msg_filter := MSG_NO_CONT_CLOCK |}.

(** The application state after a cycle that saw [xstate], with the
    running position at 0 and no position remembered. *)
Definition seen (xstate : jack_transport_state_t) : app_state :=
  {| m_xstate := xstate; mclk_last_tick := 0; client_state := Run;
     last_xpos := mk_bbtpos 0 0 0 0 0 |}.





(** The position (bar, beat, tick) in 4/4 with 1920 ticks per beat. *)
Definition bbt_at (bar beat tick : Z) : jack_position_t :=
  {| valid := JackPositionBBT; frame := 0; frame_rate := 48000;
     bar := bar; beat := beat; tick := tick; bar_start_tick := 0;
     beats_per_bar := 4; ticks_per_beat := 1920;
     beats_per_minute := 120; bbt_offset := 0 |}.

(** A lone clock byte at offset [time] of the analyzer's input port. *)
Definition clock_byte (time : Z) : midi_event := mk_event time [0xf8].

(** The analyzer before its first cycle. *)
Definition analyzer_start : MclkDump.dump_state :=
  {| MclkDump.monotonic_cnt := 0;
     MclkDump.rb :=
       MclkDump.jack_ringbuffer_create
         (MclkDump.RBSIZE * MclkDump.sizeof_timenfo) |}.

(** Two 512-sample cycles with clock bytes at the absolute sample times
    0, 500 and 1000. *)
Definition clocks_0_500_1000 : MclkDump.dump_state :=
  MclkDump.process 512 [clock_byte 488]
    (MclkDump.process 512 [clock_byte 0; clock_byte 500] analyzer_start).

(** The scheduler alone over consecutive cycles: [scan frame last pb] is the
    loop of the cycle that starts at [frame]; the running position is
    carried from cycle to cycle, every cycle has a fresh buffer. *)
Fixpoint scan_frames {T : Type}
  (scan : Z -> T -> port_buffer -> option (T * port_buffer))
  (nframes : Z) (room : nat) (frames : list Z) (last : T)
  : option (list (list midi_event)) :=
  match frames with
  | [] => Some []
  | frame :: frames' =>
      match scan frame last (jack_midi_clear_buffer nframes room) with
      | None => None
      | Some (last', pb) =>
          option_map (cons (pb_events pb))
            (scan_frames scan nframes room frames' last')
      end
  end.

(** The start frames of [n] consecutive cycles of [nframes] samples. *)
Definition consecutive_frames (nframes : Z) (n : nat) : list Z :=
  map (fun i => nframes * Z.of_nat i) (seq 0 n).

(** The scheduler's ticks over [n] cycles from position 0, in exact
    arithmetic and in binary64. *)
Definition exact_ticks (fuel : nat) (frame_rate : Z) (bpm : Q) (nframes : Z)
  (n : nat) : option (list (list midi_event)) :=
  scan_frames
    (fun frame =>
       tick_loop fuel (clock_tick_interval (inject_Z frame_rate * 60 / bpm))
         frame 0 nframes)
    nframes 16 (consecutive_frames nframes n) 0%Q.

Definition binary64_ticks (fuel : nat) (frame_rate : Z) (bpm : float)
  (nframes : Z) (n : nat) : option (list (list midi_event)) :=
  scan_frames
    (fun frame =>
       Binary64.tick_loop fuel (Binary64.clock_tick_interval frame_rate bpm)
         frame 0 nframes)
    nframes 16 (consecutive_frames nframes n) 0%float.






(** ** The command line *)

(** The option [c] is given. *)
Definition given (c : ascii) (opts : list getopt_result) : bool :=
  existsb (fun r => (opt_c r =? c)%char) opts.

(** An option that lets the program go on. *)
Definition is_setting (r : getopt_result) : bool :=
  ((opt_c r =? "b") || (opt_c r =? "B") || (opt_c r =? "P")
   || (opt_c r =? "T"))%char.

(** The default tempo after the options: the argument of the last [-b]. *)
Definition last_bpm (opts : list getopt_result) (bpm : Q) : Q :=
  fold_left (fun q r => if (opt_c r =? "b")%char then opt_atof r else q)
    opts bpm.

(** The buffer the callback starts from. *)
Definition cleared (c : cycle) : port_buffer :=
  jack_midi_clear_buffer (cy_nframes c) (cy_room c).

(** ** Messages *)

(** A message of the MIDI wire format the generator may send: a one-byte
    real-time message, or a Song Position Pointer with two 7-bit data
    bytes. *)
Definition midi_message (e : midi_event) : Prop :=
  In (ev_data e)
     [[MIDI_RT_CLOCK]; [MIDI_RT_START]; [MIDI_RT_CONTINUE]; [MIDI_RT_STOP]] \/
  exists l m : Z,
    ev_data e = [0xf2; l; m] /\ 0 <= l < 0x80 /\ 0 <= m < 0x80.

(** Offsets within the cycle, in the order of the buffer. *)
Fixpoint offsets_ordered (low nframes : Z) (evs : list midi_event) : Prop :=
  match evs with
  | [] => True
  | e :: evs' =>
      low <= ev_time e < nframes /\ offsets_ordered (ev_time e) nframes evs'
  end.

(** The buffer of a cycle as JACK expects it: obtained for the cycle's
    size, no more events than it had room for, every event a message of the
    wire format, at an offset within the cycle and not before the event
    ahead of it. *)
Definition well_formed (c : cycle) (pb : port_buffer) : Prop :=
  pb_nframes pb = cy_nframes c /\
  (pb_room pb + length (pb_events pb) = cy_room c)%nat /\
  offsets_ordered 0 (cy_nframes c) (pb_events pb) /\
  Forall midi_message (pb_events pb).

(** ** Position messages *)






(** ** The grid of the scheduler *)

(** The rounded position of the [j]-th tick after the running position
    [last], at the interval [d]. *)
Definition grid_position (last d : Q) (j : nat) : Z :=
  llrint (last + inject_Z (Z.of_nat j) * d)%Q.


(** ** The analyzer's queue and output *)

(** The records that still fit into the ring buffer. *)
Definition free_slots (rb : MclkDump.jack_ringbuffer_t) : nat :=
  Z.to_nat (MclkDump.jack_ringbuffer_write_space rb / MclkDump.sizeof_timenfo).

(** The records for the lone clock bytes among [events], in their order,
    stamped from the sample counter [cnt]. *)
Definition stamps (cnt : Z) (events : list midi_event)
  : list MclkDump.timenfo :=
  map (fun e => MclkDump.mk_timenfo 0xf8 (MclkDump.ull (cnt + ev_time e)))
      (filter (is_rt_msg MIDI_RT_CLOCK) events).

(** The lines printed for the records [l], read one after the other, the
    first of them after the record [pt]. *)
Fixpoint reports (j_samplerate : Z) (pt : MclkDump.timenfo)
  (l : list MclkDump.timenfo) : list MclkDump.report :=
  match l with
  | [] => []
  | t :: l' =>
      MclkDump.print_tick j_samplerate pt t ++ reports j_samplerate t l'
  end.

(** The analyzer's input port connected to an output port: each buffer
    handed back by the other side is the input of the analyzer's callback
    for the same cycle, and the consumer takes a turn after every cycle. *)
Fixpoint analyze (j_samplerate : Z) (bufs : list port_buffer)
  (s : MclkDump.dump_state) (pt : MclkDump.timenfo)
  : list MclkDump.report :=
  match bufs with
  | [] => []
  | pb :: bufs' =>
      let s1 := MclkDump.process (pb_nframes pb) (pb_events pb) s in
      let '(pt', rb', out) :=
        MclkDump.main_loop_body j_samplerate pt (MclkDump.rb s1) in
      out ++ analyze j_samplerate bufs'
               (MclkDump.mk_dump_state (MclkDump.monotonic_cnt s1) rb') pt'
  end.

(** The records of the lone clock bytes of consecutive cycles, the sample
    counter at [cnt] for the first. *)
Fixpoint all_stamps (cnt : Z) (bufs : list port_buffer)
  : list MclkDump.timenfo :=
  match bufs with
  | [] => []
  | pb :: bufs' =>
      stamps cnt (pb_events pb)
      ++ all_stamps (MclkDump.ull (cnt + pb_nframes pb)) bufs'
  end.



(** Callbacks of the analyzer one after the other, the consumer not
    taking a turn in between. *)
Definition produce (bufs : list port_buffer) (s : MclkDump.dump_state)
  : MclkDump.dump_state :=
  fold_left (fun s pb => MclkDump.process (pb_nframes pb) (pb_events pb) s)
    bufs s.

(** The cycle [c] with a buffer that has room for [room] events. *)
Definition with_room (room : nat) (c : cycle) : cycle :=
  {| cy_nframes := cy_nframes c; cy_xstate := cy_xstate c;
     cy_xpos := cy_xpos c; cy_room := room |}.

(** * Properties *)

(** ** Rounding *)

Section Rounding.

(** Turn an equation on [?=] into the order it states. *)
Ltac Qcompare_in H :=
  first [ apply Qeq_alt in H | apply Qlt_alt in H | apply Qgt_alt in H ].

Lemma llrint_cases (x : Q) :
  (llrint x = Qfloor x /\ (x - inject_Z (Qfloor x) <= 1 # 2)%Q) \/
  (llrint x = Qfloor x + 1 /\ (1 # 2 <= x - inject_Z (Qfloor x))%Q).
Proof.
  unfold llrint.
  destruct (x - inject_Z (Qfloor x) ?= 1 # 2)%Q eqn:E.
  - Qcompare_in E.
    destruct (Z.even (Qfloor x)); [left | right]; split; auto; lra.
  - Qcompare_in E. left; split; auto; lra.
  - Qcompare_in E. right; split; auto; lra.
Qed.

Lemma llrint_lower (x : Q) : (x - (1 # 2) <= inject_Z (llrint x))%Q.
Proof.
  pose proof (Qlt_floor x) as Hf. pose proof (Qfloor_le x) as Hl.
  rewrite inject_Z_plus in Hf.
  destruct (llrint_cases x) as [[-> H] | [-> H]].
  - lra.
  - rewrite inject_Z_plus. change (inject_Z 1) with 1%Q in *. lra.
Qed.



Lemma llrint_proper (x y : Q) : (x == y)%Q -> llrint x = llrint y.
Proof.
  intro E. unfold llrint.
  assert (Hf : Qfloor x = Qfloor y) by (rewrite E; reflexivity).
  rewrite Hf.
  assert (Hc : (x - inject_Z (Qfloor y) ?= 1 # 2)%Q
               = (y - inject_Z (Qfloor y) ?= 1 # 2)%Q)
    by (rewrite E; reflexivity).
  rewrite Hc. reflexivity.
Qed.

Lemma llrint_mono (x y : Q) : (x <= y)%Q -> llrint x <= llrint y.
Proof.
  intro Hxy.
  pose proof (Qfloor_resp_le x y Hxy) as Hfl.
  destruct (Z.eq_dec (Qfloor x) (Qfloor y)) as [E | NE].
  - unfold llrint. rewrite E.
    destruct (x - inject_Z (Qfloor y) ?= 1 # 2)%Q eqn:Ex;
      destruct (y - inject_Z (Qfloor y) ?= 1 # 2)%Q eqn:Ey;
      try (destruct (Z.even (Qfloor y))); try lia;
      Qcompare_in Ex; Qcompare_in Ey; exfalso; lra.
  - destruct (llrint_cases x) as [[-> _] | [-> _]];
      destruct (llrint_cases y) as [[-> _] | [-> _]]; lia.
Qed.


(** An integer strictly above [b - 1/2] is at least [b]. *)
Lemma inject_Z_above_half (a b : Z) :
  (inject_Z b - (1 # 2) < inject_Z a)%Q -> b <= a.
Proof.
  intro H. destruct (Z_lt_le_dec a b) as [Hlt | Hle]; [ | exact Hle].
  exfalso.
  assert (Hle : a + 1 <= b) by lia.
  rewrite Zle_Qle in Hle. rewrite inject_Z_plus in Hle.
  change (inject_Z 1) with 1%Q in Hle. lra.
Qed.

Lemma inject_Z_of_nat_succ (n : nat) :
  (inject_Z (Z.of_nat (S n)) == inject_Z (Z.of_nat n) + 1)%Q.
Proof.
  rewrite Nat2Z.inj_succ. unfold Z.succ. rewrite inject_Z_plus. reflexivity.
Qed.

Lemma inject_Z_succ_mult (n : nat) (d : Q) :
  (inject_Z (Z.of_nat (S n)) * d == inject_Z (Z.of_nat n) * d + d)%Q.
Proof. rewrite inject_Z_of_nat_succ. ring. Qed.

End Rounding.

(** ** The port buffer *)

Section PortBuffer.

Lemma send_rt_message_accepted (pb : port_buffer) (time rt_msg : Z) :
  jack_midi_event_reserve pb time 1 = true ->
  send_rt_message pb time rt_msg = event_written pb time [rt_msg].
Proof. intro H. unfold send_rt_message. rewrite H. reflexivity. Qed.

Lemma send_rt_message_events (pb : port_buffer) (time rt_msg : Z) :
  pb_events (send_rt_message pb time rt_msg) = pb_events pb \/
  pb_events (send_rt_message pb time rt_msg)
  = pb_events pb ++ [mk_event time [rt_msg]].
Proof.
  unfold send_rt_message.
  destruct (jack_midi_event_reserve pb time 1); [right | left]; reflexivity.
Qed.

Lemma send_rt_message_nframes (pb : port_buffer) (time rt_msg : Z) :
  pb_nframes (send_rt_message pb time rt_msg) = pb_nframes pb.
Proof.
  unfold send_rt_message.
  destruct (jack_midi_event_reserve pb time 1); reflexivity.
Qed.

(** An empty buffer of a non-empty cycle with room takes an event at
    offset 0. *)
Lemma reserve_cleared (nframes : Z) (room : nat) (data_size : Z) :
  0 < nframes -> (0 < room)%nat -> 0 < data_size ->
  jack_midi_event_reserve (jack_midi_clear_buffer nframes room) 0 data_size
  = true.
Proof.
  intros Hn Hr Hs. unfold jack_midi_event_reserve, jack_midi_clear_buffer,
    last_event_time. simpl.
  destruct room; [lia | ].
  replace (0 <? nframes) with true by (symmetry; apply Z.ltb_lt; lia).
  replace (0 <? data_size) with true by (symmetry; apply Z.ltb_lt; lia).
  reflexivity.
Qed.

Lemma last_event_time_written (pb : port_buffer) (time : Z) (data : list Z) :
  last_event_time (event_written pb time data) = time.
Proof.
  unfold last_event_time, event_written. simpl.
  rewrite rev_app_distr. reflexivity.
Qed.

(** After an event at offset 0 another one at offset 0 still fits, as long
    as there is room. *)
Lemma reserve_after_written (pb : port_buffer) (data : list Z)
  (data_size : Z) :
  0 < pb_nframes pb -> (1 < pb_room pb)%nat -> 0 < data_size ->
  jack_midi_event_reserve (event_written pb 0 data) 0 data_size = true.
Proof.
  intros Hn Hr Hs. unfold jack_midi_event_reserve.
  rewrite last_event_time_written. simpl.
  replace (0 <? pb_nframes pb) with true by (symmetry; apply Z.ltb_lt; lia).
  replace (0 <? data_size) with true by (symmetry; apply Z.ltb_lt; lia).
  destruct (pb_room pb) as [ | [ | r]]; [lia | lia | reflexivity].
Qed.

End PortBuffer.

(** ** The loop of the tick scheduler *)

Section TickLoop.

Variables (d : Q) (frame bbt_offset nframes : Z).

Let loop (fuel : nat) := tick_loop fuel d frame bbt_offset nframes.

Lemma tick_loop_break (fuel : nat) (last : Q) (pb : port_buffer) :
  nframes <= llrint (last + d) - frame - bbt_offset ->
  loop (S fuel) last pb = Some (last, pb).
Proof.
  intro H. unfold loop. simpl.
  replace (llrint (last + d) - frame - bbt_offset >=? nframes) with true
    by (symmetry; apply Z.geb_le; lia).
  reflexivity.
Qed.

Lemma tick_loop_continue (fuel : nat) (last : Q) (pb : port_buffer) :
  llrint (last + d) - frame - bbt_offset < nframes ->
  loop (S fuel) last pb
  = loop fuel (last + d)%Q
      (if llrint (last + d) - frame - bbt_offset >=? 0
       then send_rt_message pb (llrint (last + d) - frame - bbt_offset)
              MIDI_RT_CLOCK
       else pb).
Proof.
  intro H. unfold loop. simpl.
  replace (llrint (last + d) - frame - bbt_offset >=? nframes) with false
    by (symmetry; rewrite Z.geb_leb; apply Z.leb_gt; lia).
  reflexivity.
Qed.

(** More fuel does not change a result. *)
Lemma tick_loop_fuel_mono (fuel fuel' : nat) (last : Q) (pb : port_buffer)
  (r : Q * port_buffer) :
  loop fuel last pb = Some r -> (fuel <= fuel')%nat ->
  loop fuel' last pb = Some r.
Proof.
  revert fuel' last pb.
  induction fuel as [ | fuel IH]; intros fuel' last pb H Hle.
  - discriminate.
  - destruct fuel' as [ | fuel']; [lia | ].
    destruct (Z_lt_le_dec (llrint (last + d) - frame - bbt_offset) nframes)
      as [Hlt | Hge].
    + rewrite tick_loop_continue in H |- * by assumption.
      apply IH; [exact H | lia].
    + rewrite tick_loop_break in H |- * by assumption. exact H.
Qed.

(** With a positive interval the scan ends: once the running position is
    [m] intervals or less below the end of the cycle, [m + 1] turns are
    enough. *)
Lemma tick_loop_fuel_enough (m : nat) :
  (0 < d)%Q ->
  forall (last : Q) (pb : port_buffer),
    (inject_Z (frame + bbt_offset + nframes) - last
     <= inject_Z (Z.of_nat m) * d)%Q ->
    exists r, loop (S m) last pb = Some r.
Proof.
  intro Hd. induction m as [ | m IH]; intros last pb Hm.
  - exists (last, pb). apply tick_loop_break.
    change (inject_Z (Z.of_nat 0)) with 0%Q in Hm.
    pose proof (llrint_lower (last + d)) as Hl.
    assert (H : frame + bbt_offset + nframes <= llrint (last + d))
      by (apply inject_Z_above_half; lra).
    lia.
  - destruct (Z_lt_le_dec (llrint (last + d) - frame - bbt_offset) nframes)
      as [Hlt | Hge].
    + rewrite tick_loop_continue by assumption.
      apply IH.
      rewrite inject_Z_succ_mult in Hm. lra.
    + exists (last, pb). apply tick_loop_break. exact Hge.
Qed.

Lemma tick_loop_terminates (last : Q) (pb : port_buffer) :
  (0 < d)%Q ->
  exists fuel0 r, forall fuel, (fuel0 <= fuel)%nat -> loop fuel last pb = Some r.
Proof.
  intro Hd.
  set (gap := ((inject_Z (frame + bbt_offset + nframes) - last) / d)%Q).
  set (m := Z.to_nat (Qceiling gap)).
  destruct (tick_loop_fuel_enough m Hd last pb) as [r Hr].
  - assert (Hg : (gap <= inject_Z (Z.of_nat m))%Q).
    { pose proof (Qle_ceiling gap) as Hc.
      assert (Hz : Qceiling gap <= Z.of_nat m) by (unfold m; lia).
      rewrite Zle_Qle in Hz. lra. }
    assert (Hgap : (inject_Z (frame + bbt_offset + nframes) - last == gap * d)%Q)
      by (unfold gap; field; lra).
    rewrite Hgap. apply Qmult_le_compat_r; lra.
  - exists (S m), r. intros fuel Hle.
    apply tick_loop_fuel_mono with (fuel := S m); assumption.
Qed.

End TickLoop.

(** ** Counting messages *)

Section Counting.

Lemma count_msg_app (m : Z) (a b : list midi_event) :
  count_msg m (a ++ b) = (count_msg m a + count_msg m b)%nat.
Proof. unfold count_msg. rewrite filter_app, length_app. reflexivity. Qed.

Lemma count_start_continue_app (a b : list midi_event) :
  count_start_continue (a ++ b)
  = (count_start_continue a + count_start_continue b)%nat.
Proof.
  unfold count_start_continue. rewrite filter_app, length_app. reflexivity.
Qed.

Lemma count_msg_send_rt (m m' : Z) (pb : port_buffer) (time : Z) :
  count_msg m (pb_events (send_rt_message pb time m'))
  = (count_msg m (pb_events pb)
     + if jack_midi_event_reserve pb time 1 && (m' =? m)%Z then 1 else 0)%nat.
Proof.
  unfold send_rt_message.
  destruct (jack_midi_event_reserve pb time 1); simpl.
  - rewrite count_msg_app. unfold count_msg at 2, is_rt_msg. simpl.
    destruct (m' =? m); reflexivity.
  - lia.
Qed.

Lemma count_start_continue_send_rt (m' : Z) (pb : port_buffer) (time : Z) :
  count_start_continue (pb_events (send_rt_message pb time m'))
  = (count_start_continue (pb_events pb)
     + if jack_midi_event_reserve pb time 1
          && ((m' =? MIDI_RT_START) || (m' =? MIDI_RT_CONTINUE))%Z
       then 1 else 0)%nat.
Proof.
  unfold send_rt_message.
  destruct (jack_midi_event_reserve pb time 1); simpl.
  - rewrite count_start_continue_app.
    unfold count_start_continue at 2, is_start_or_continue, is_rt_msg. simpl.
    destruct ((m' =? MIDI_RT_START) || (m' =? MIDI_RT_CONTINUE)); reflexivity.
  - lia.
Qed.

(** [send_pos_message] writes nothing or one Song Position Pointer. *)
Lemma send_pos_message_events (o : options) (pb : port_buffer)
  (xpos : jack_position_t) :
  send_pos_message o pb xpos = pb \/
  send_pos_message o pb xpos
  = event_written pb 0
      [0xf2; Z.land (bcnt xpos) 0x7f; Z.land (Z.shiftr (bcnt xpos) 7) 0x7f].
Proof.
  unfold send_pos_message.
  destruct (flag_set (msg_filter o) MSG_NO_POSITION); [left; reflexivity | ].
  destruct (negb (flag_set (valid xpos) JackPositionBBT)); [left; reflexivity | ].
  destruct ((bcnt xpos <? 0) || (bcnt xpos >=? 16384)); [left; reflexivity | ].
  destruct (negb (jack_midi_event_reserve pb 0 3)); [left | right]; reflexivity.
Qed.

Lemma count_msg_send_pos (m : Z) (o : options) (pb : port_buffer)
  (xpos : jack_position_t) :
  count_msg m (pb_events (send_pos_message o pb xpos))
  = count_msg m (pb_events pb).
Proof.
  destruct (send_pos_message_events o pb xpos) as [-> | ->]; [reflexivity | ].
  simpl. rewrite count_msg_app. unfold count_msg at 2. simpl. lia.
Qed.

Lemma count_start_continue_send_pos (o : options) (pb : port_buffer)
  (xpos : jack_position_t) :
  count_start_continue (pb_events (send_pos_message o pb xpos))
  = count_start_continue (pb_events pb).
Proof.
  destruct (send_pos_message_events o pb xpos) as [-> | ->]; [reflexivity | ].
  simpl. rewrite count_start_continue_app.
  unfold count_start_continue at 2. simpl. lia.
Qed.


(** Clock ticks are neither Stop nor Start nor Continue. *)
Lemma count_msg_clocks (m : Z) (evs : list midi_event) :
  m <> MIDI_RT_CLOCK ->
  Forall (fun e => ev_data e = [MIDI_RT_CLOCK]) evs ->
  count_msg m evs = 0%nat.
Proof.
  intros Hm H. induction H as [ | e evs He _ IH]; [reflexivity | ].
  unfold count_msg in *. simpl. unfold is_rt_msg at 1. rewrite He.
  replace (MIDI_RT_CLOCK =? m) with false
    by (symmetry; apply Z.eqb_neq; congruence).
  exact IH.
Qed.

Lemma count_start_continue_clocks (evs : list midi_event) :
  Forall (fun e => ev_data e = [MIDI_RT_CLOCK]) evs ->
  count_start_continue evs = 0%nat.
Proof.
  intro H. induction H as [ | e evs He _ IH]; [reflexivity | ].
  unfold count_start_continue in *. simpl.
  unfold is_start_or_continue at 1, is_rt_msg. rewrite He. simpl. exact IH.
Qed.

End Counting.

(** ** What one scan leaves behind *)

Section Scan.

Lemma scanned_weaken (d : Q) (frame bbt_offset nframes : Z) (last : Q)
  (n : nat) (e : midi_event) :
  scanned d frame bbt_offset nframes (last + d)%Q n e ->
  scanned d frame bbt_offset nframes last (S n) e.
Proof.
  intros (Hdata & Htime & j & Hj & Ht).
  split; [exact Hdata | split; [exact Htime | ]].
  exists (S j). split; [lia | ].
  rewrite Ht. apply llrint_proper. rewrite inject_Z_succ_mult. ring.
Qed.

(** The scan advances the running position by a whole number [n] of
    intervals, and appends only Clock ticks, each at the rounded position
    of one of the [n] scanned ticks. *)
Lemma tick_loop_scan (fuel : nat) (d : Q) (frame bbt_offset nframes : Z) :
  forall (last : Q) (pb : port_buffer) (last' : Q) (pb' : port_buffer),
    tick_loop fuel d frame bbt_offset nframes last pb = Some (last', pb') ->
    exists (n : nat) (evs : list midi_event),
      (last' == last + inject_Z (Z.of_nat n) * d)%Q /\
      pb_events pb' = pb_events pb ++ evs /\
      pb_nframes pb' = pb_nframes pb /\
      Forall (scanned d frame bbt_offset nframes last n) evs.
Proof.
  induction fuel as [ | fuel IH]; intros last pb last' pb' H.
  - discriminate.
  - destruct (Z_lt_le_dec (llrint (last + d) - frame - bbt_offset) nframes)
      as [Hlt | Hge].
    + rewrite tick_loop_continue in H by assumption.
      apply IH in H. destruct H as (n & evs & Hlast & Hev & Hnf & Hall).
      assert (Hall' : Forall (scanned d frame bbt_offset nframes last (S n)) evs).
      { eapply Forall_impl; [ | exact Hall].
        intros e He. apply scanned_weaken. exact He. }
      assert (Hlast' : (last' == last + inject_Z (Z.of_nat (S n)) * d)%Q)
        by (rewrite Hlast, inject_Z_succ_mult; ring).
      destruct (llrint (last + d) - frame - bbt_offset >=? 0) eqn:Hpos.
      * rewrite send_rt_message_nframes in Hnf.
        destruct (send_rt_message_events pb
                    (llrint (last + d) - frame - bbt_offset) MIDI_RT_CLOCK)
          as [E | E]; rewrite E in Hev.
        -- exists (S n), evs. repeat split; assumption.
        -- exists (S n), (mk_event (llrint (last + d) - frame - bbt_offset)
                            [MIDI_RT_CLOCK] :: evs).
           rewrite <- app_assoc in Hev. repeat split; try assumption.
           constructor; [ | exact Hall'].
           split; [reflexivity | split].
           ++ simpl. apply Z.geb_le in Hpos. lia.
           ++ exists 1%nat. split; [lia | ]. simpl.
              replace (frame + bbt_offset
                       + (llrint (last + d) - frame - bbt_offset))
                with (llrint (last + d)) by lia.
              apply llrint_proper. change (inject_Z (Z.of_nat 1)) with 1%Q.
              ring.
      * exists (S n), evs. repeat split; assumption.
    + rewrite tick_loop_break in H by assumption.
      injection H as <- <-. exists 0%nat, []. repeat split.
      * change (inject_Z (Z.of_nat 0)) with 0%Q. ring.
      * rewrite app_nil_r. reflexivity.
      * constructor.
Qed.

Lemma clock_tick_interval_pos (samples_per_beat : Q) :
  (0 < samples_per_beat)%Q -> (0 < clock_tick_interval samples_per_beat)%Q.
Proof.
  intro H. unfold clock_tick_interval, quarter_notes_per_beat.
  assert (E : (samples_per_beat / 1 / 24 == samples_per_beat * (1 # 24))%Q)
    by (field).
  rewrite E. lra.
Qed.

(** The scheduler leaves everything but [mclk_last_tick] alone, advances
    that by a whole number of intervals of the cycle, and appends only
    scanned Clock ticks. *)
Lemma send_clock_ticks_scan (fuel : nat) (o : options) (s : app_state)
  (c : cycle) (pb : port_buffer) (s' : app_state) (pb' : port_buffer) :
  send_clock_ticks fuel o s c pb = Some (s', pb') ->
  m_xstate s' = m_xstate s /\
  client_state s' = client_state s /\
  last_xpos s' = last_xpos s /\
  pb_nframes pb' = pb_nframes pb /\
  exists (n : nat) (evs : list midi_event),
    (mclk_last_tick s'
     == mclk_last_tick s
        + inject_Z (Z.of_nat n) * cycle_interval o (cy_xpos c))%Q /\
    pb_events pb' = pb_events pb ++ evs /\
    Forall (fun e => ev_data e = [MIDI_RT_CLOCK]) evs /\
    forall samples_per_beat bbt_offset,
      calc_samples_per_beat o (cy_xpos c) = Some (samples_per_beat, bbt_offset) ->
      Forall (scanned (clock_tick_interval samples_per_beat)
                (frame (cy_xpos c)) bbt_offset (cy_nframes c)
                (mclk_last_tick s) n) evs.
Proof.
  unfold send_clock_ticks, cycle_interval. intro H.
  (* the three early returns leave everything as it is *)
  match goal with
  | |- ?G => assert (Hidle : s' = s -> pb' = pb -> G)
  end.
  { intros -> ->. repeat split. exists 0%nat, []. repeat split.
    - change (inject_Z (Z.of_nat 0)) with 0%Q. ring.
    - rewrite app_nil_r. reflexivity.
    - constructor.
    - intros; constructor. }
  destruct (negb (xstate_eqb (cy_xstate c) JackTransportRolling)
            && flag_set (msg_filter o) MSG_NO_CONT_CLOCK).
  { injection H as <- <-. apply Hidle; reflexivity. }
  destruct (flag_set (msg_filter o) MSG_NO_CLOCK).
  { injection H as <- <-. apply Hidle; reflexivity. }
  destruct (calc_samples_per_beat o (cy_xpos c)) as [[spb off] | ].
  2:{ injection H as <- <-. apply Hidle; reflexivity. }
  clear Hidle.
  destruct (tick_loop fuel (clock_tick_interval spb) (frame (cy_xpos c)) off
              (cy_nframes c) (mclk_last_tick s) pb) as [[t pb1] | ] eqn:Hloop;
    [ | discriminate].
  injection H as <- <-.
  apply tick_loop_scan in Hloop.
  destruct Hloop as (n & evs & Hlast & Hev & Hnf & Hall).
  repeat split; try assumption.
  exists n, evs. repeat split; try assumption.
  - eapply Forall_impl; [ | exact Hall]. intros e He. apply He.
  - intros spb' off' E. injection E as <- <-. exact Hall.
Qed.

End Scan.

(** ** The callback, cycle by cycle *)

Section Callback.

Lemma process_running (fuel : nat) (o : options) (s : app_state) (c : cycle) :
  client_state s = Run ->
  process fuel o s c
  = send_clock_ticks fuel o (fst (before_scheduler o s c)) c
      (snd (before_scheduler o s c)).
Proof.
  intro H. unfold process, before_scheduler. rewrite H.
  destruct (send_transport_messages _ _ _ _). reflexivity.
Qed.

Lemma xstate_eqb_eq (a b : jack_transport_state_t) :
  xstate_eqb a b = true <-> a = b.
Proof. destruct a, b; simpl; split; congruence. Qed.

Lemma xstate_eqb_refl (a : jack_transport_state_t) : xstate_eqb a a = true.
Proof. destruct a; reflexivity. Qed.

Lemma xstate_eqb_neq (a b : jack_transport_state_t) :
  xstate_eqb a b = false <-> a <> b.
Proof. destruct a, b; simpl; split; congruence. Qed.

(** The state the scheduler starts from. *)
Lemma before_scheduler_state (o : options) (s : app_state) (c : cycle) :
  let s1 := fst (before_scheduler o s c) in
  m_xstate s1 = cy_xstate c /\
  client_state s1 = client_state s /\
  last_xpos s1 = remember_pos (last_xpos s) (cy_xpos c) /\
  mclk_last_tick s1
  = (if xstate_eqb (cy_xstate c) (m_xstate s) then mclk_last_tick s
     else inject_Z (frame (cy_xpos c))).
Proof.
  unfold before_scheduler, send_transport_messages. simpl.
  destruct (xstate_eqb (cy_xstate c) (m_xstate s)) eqn:E; simpl.
  - apply xstate_eqb_eq in E. repeat split; auto.
  - repeat split; auto.
Qed.




(** *** Fuel *)


Lemma send_clock_ticks_terminates (o : options) (s : app_state) (c : cycle)
  (pb : port_buffer) :
  tempo_positive o (cy_xpos c) ->
  exists fuel0 r, forall fuel, (fuel0 <= fuel)%nat ->
    send_clock_ticks fuel o s c pb = Some r.
Proof.
  unfold tempo_positive, send_clock_ticks. intro Hpos.
  destruct (_ && _); [exists 0%nat; eexists; reflexivity | ].
  destruct (flag_set _ _); [exists 0%nat; eexists; reflexivity | ].
  destruct (calc_samples_per_beat _ _) as [[spb off] | ];
    [ | exists 0%nat; eexists; reflexivity].
  destruct (tick_loop_terminates (clock_tick_interval spb) (frame (cy_xpos c))
              off (cy_nframes c) (mclk_last_tick s) pb
              (clock_tick_interval_pos _ Hpos)) as (fuel0 & [t pb1] & H).
  exists fuel0. eexists. intros fuel Hle. rewrite (H fuel Hle). reflexivity.
Qed.


Lemma process_terminates (o : options) (s : app_state) (c : cycle) :
  tempo_positive o (cy_xpos c) ->
  exists fuel0 r, forall fuel, (fuel0 <= fuel)%nat -> process fuel o s c = Some r.
Proof.
  intro Hpos. unfold process.
  destruct (client_state s);
    try (exists 0%nat; eexists; reflexivity).
  destruct (send_transport_messages _ _ _ _) as [s1 pb1].
  apply send_clock_ticks_terminates. exact Hpos.
Qed.

Lemma process_client_state (fuel : nat) (o : options) (s : app_state)
  (c : cycle) (s' : app_state) (pb : port_buffer) :
  process fuel o s c = Some (s', pb) -> client_state s' = client_state s.
Proof.
  unfold process. intro H.
  destruct (client_state s) eqn:E; try (injection H as <- _; exact E).
  destruct (send_transport_messages _ _ _ _) as [s1 pb1] eqn:E1.
  apply send_clock_ticks_scan in H. destruct H as (_ & -> & _).
  unfold send_transport_messages in E1.
  destruct (negb _); injection E1 as <- _; exact E.
Qed.


Lemma run_terminates (o : options) (cycles : list cycle) :
  Forall (fun c => tempo_positive o (cy_xpos c)) cycles ->
  forall s : app_state,
  exists fuel0 r, forall fuel, (fuel0 <= fuel)%nat -> run fuel o s cycles = Some r.
Proof.
  induction 1 as [ | c cycles Hc _ IH]; intro s.
  - exists 0%nat. eexists. reflexivity.
  - destruct (process_terminates o s c Hc) as (f1 & [s1 pb] & H1).
    destruct (IH s1) as (f2 & [s2 bufs] & H2).
    exists (Nat.max f1 f2), (s2, pb :: bufs). intros fuel Hle. simpl.
    rewrite H1 by lia. rewrite H2 by lia. reflexivity.
Qed.

(** Total correctness from partial correctness. *)
Lemma process_total (o : options) (s : app_state) (c : cycle)
  (P : app_state -> port_buffer -> Prop) :
  tempo_positive o (cy_xpos c) ->
  (forall fuel s' pb, process fuel o s c = Some (s', pb) -> P s' pb) ->
  exists fuel0, forall fuel, (fuel0 <= fuel)%nat ->
    exists s' pb, process fuel o s c = Some (s', pb) /\ P s' pb.
Proof.
  intros Hpos HP.
  destruct (process_terminates o s c Hpos) as (fuel0 & [s' pb] & H).
  exists fuel0. intros fuel Hle. exists s', pb.
  split; [apply H; exact Hle | ]. apply (HP fuel). apply H. exact Hle.
Qed.

Lemma run_total (o : options) (s : app_state) (cycles : list cycle)
  (P : app_state -> list port_buffer -> Prop) :
  Forall (fun c => tempo_positive o (cy_xpos c)) cycles ->
  (forall fuel s' bufs, run fuel o s cycles = Some (s', bufs) -> P s' bufs) ->
  exists fuel0, forall fuel, (fuel0 <= fuel)%nat ->
    exists s' bufs, run fuel o s cycles = Some (s', bufs) /\ P s' bufs.
Proof.
  intros Hpos HP.
  destruct (run_terminates o cycles Hpos s) as (fuel0 & [s' bufs] & H).
  exists fuel0. intros fuel Hle. exists s', bufs.
  split; [apply H; exact Hle | ]. apply (HP fuel). apply H. exact Hle.
Qed.

End Callback.

(** ** What the state machine writes *)

Section StateMachineEvents.

Lemma Forall_send_rt (P : midi_event -> Prop) (pb : port_buffer)
  (time rt_msg : Z) :
  Forall P (pb_events pb) -> P (mk_event time [rt_msg]) ->
  Forall P (pb_events (send_rt_message pb time rt_msg)).
Proof.
  intros Hall He.
  destruct (send_rt_message_events pb time rt_msg) as [-> | ->];
    [exact Hall | ].
  apply Forall_app. split; [exact Hall | constructor; [exact He | constructor]].
Qed.


(** Everything the state machine writes satisfies [P], as soon as
    [send_pos_message] keeps [P] and, on a state edge, the four real-time
    messages satisfy it. *)
Lemma before_scheduler_Forall (P : midi_event -> Prop) (o : options)
  (s : app_state) (c : cycle) :
  (cy_xstate c <> m_xstate s ->
   forall m,
     In m [MIDI_RT_STOP; MIDI_RT_START; MIDI_RT_CONTINUE; MIDI_RT_CLOCK] ->
     P (mk_event 0 [m])) ->
  (forall pb, Forall P (pb_events pb) ->
              Forall P (pb_events (send_pos_message o pb (cy_xpos c)))) ->
  Forall P (pb_events (snd (before_scheduler o s c))).
Proof.
  intros Hrt Hpos.
  unfold before_scheduler, send_transport_messages, send_position_updates.
  cbn [m_xstate set_last_xpos].
  destruct (xstate_eqb (cy_xstate c) (m_xstate s)) eqn:E; simpl.
  - rewrite andb_true_r.
    destruct (xstate_eqb (cy_xstate c) JackTransportStopped); [ | constructor].
    destruct (_ >? _); [ | constructor].
    apply Hpos. constructor.
  - rewrite andb_false_r.
    apply xstate_eqb_neq in E. specialize (Hrt E).
    assert (Hssc : Forall P
              (pb_events (send_start_stop_continue o
                 (set_last_xpos s (remember_pos (last_xpos s) (cy_xpos c))) c
                 (jack_midi_clear_buffer (cy_nframes c) (cy_room c))))).
    { unfold send_start_stop_continue.
      destruct (cy_xstate c); try constructor.
      - apply Hpos. destruct (negb _); [ | constructor].
        apply Forall_send_rt; [constructor | apply Hrt; simpl; auto].
      - destruct (xstate_eqb _ _); [constructor | ].
        destruct (_ =? _); (destruct (negb _); [ | constructor]);
          (apply Forall_send_rt; [constructor | apply Hrt; simpl; auto]).
      - destruct (xstate_eqb _ _); [constructor | ].
        destruct (_ =? _); (destruct (negb _); [ | constructor]);
          (apply Forall_send_rt; [constructor | apply Hrt; simpl; auto]). }
    destruct (xstate_eqb (cy_xstate c) JackTransportRolling); [ | exact Hssc].
    destruct (negb _); [ | exact Hssc].
    apply Forall_send_rt; [exact Hssc | apply Hrt; simpl; auto].
Qed.

End StateMachineEvents.

(** ** State edges *)

Section Edges.

(** The transport messages of a cycle, whatever the options and the room. *)
Lemma before_scheduler_counts (o : options) (s : app_state) (c : cycle) :
  let evs := pb_events (snd (before_scheduler o s c)) in
  let sent :=
    negb (flag_set (msg_filter o) MSG_NO_TRANSPORT)
    && jack_midi_event_reserve
         (jack_midi_clear_buffer (cy_nframes c) (cy_room c)) 0 1 in
  count_msg MIDI_RT_STOP evs
  = (if stop_edge (m_xstate s) (cy_xstate c) && sent then 1 else 0)%nat /\
  count_start_continue evs
  = (if start_edge (m_xstate s) (cy_xstate c) && sent then 1 else 0)%nat.
Proof.
  unfold before_scheduler, send_transport_messages,
    send_position_updates, stop_edge, start_edge.
  cbn [m_xstate set_last_xpos].
  destruct (xstate_eqb (cy_xstate c) (m_xstate s)) eqn:E; simpl.
  - apply xstate_eqb_eq in E. rewrite <- E.
    rewrite !andb_false_r.
    destruct (xstate_eqb (cy_xstate c) JackTransportStopped); simpl.
    + destruct (_ >? _); [ | split; reflexivity].
      rewrite count_msg_send_pos, count_start_continue_send_pos.
      split; reflexivity.
    + split; reflexivity.
  - rewrite andb_false_r, andb_true_r.
    unfold send_start_stop_continue. cbn [m_xstate set_last_xpos].
    destruct (flag_set (msg_filter o) MSG_NO_TRANSPORT);
    destruct (jack_midi_event_reserve
                (jack_midi_clear_buffer (cy_nframes c) (cy_room c)) 0 1) eqn:Hres;
    destruct (cy_xstate c) eqn:Ec, (m_xstate s) eqn:Em;
      simpl in *; try discriminate;
      try destruct (frame (cy_xpos c) =? 0);
      try destruct (negb (flag_set (msg_filter o) MSG_NO_CLOCK));
      repeat (first [ rewrite count_msg_send_rt
                    | rewrite count_msg_send_pos
                    | rewrite count_start_continue_send_rt
                    | rewrite count_start_continue_send_pos ]);
      try rewrite Hres; simpl; rewrite ?andb_false_r;
      try (split; reflexivity).
Qed.

Lemma process_counts (fuel : nat) (o : options) (s : app_state) (c : cycle)
  (s' : app_state) (pb : port_buffer) :
  client_state s = Run ->
  process fuel o s c = Some (s', pb) ->
  m_xstate s' = cy_xstate c /\
  count_msg MIDI_RT_STOP (pb_events pb)
  = count_msg MIDI_RT_STOP (pb_events (snd (before_scheduler o s c))) /\
  count_start_continue (pb_events pb)
  = count_start_continue (pb_events (snd (before_scheduler o s c))).
Proof.
  intros Hrun H. rewrite process_running in H by exact Hrun.
  apply send_clock_ticks_scan in H.
  destruct H as (Hx & _ & _ & _ & n & evs & _ & Hev & Hclk & _).
  destruct (before_scheduler_state o s c) as (Hx1 & _).
  split; [congruence | ].
  rewrite Hev, count_msg_app, count_start_continue_app.
  rewrite (count_msg_clocks MIDI_RT_STOP evs) by (assumption || discriminate).
  rewrite (count_start_continue_clocks evs) by assumption.
  split; lia.
Qed.


(** Cycle by cycle: a Stop exactly on the edges into Stopped, a Start or
    Continue exactly on the edges [start_edge] names. *)
Lemma run_counts (fuel : nat) (o : options) (cycles : list cycle) :
  flag_set (msg_filter o) MSG_NO_TRANSPORT = false ->
  Forall (fun c => 0 < cy_nframes c /\ (0 < cy_room c)%nat) cycles ->
  forall (s s' : app_state) (bufs : list port_buffer),
    client_state s = Run ->
    run fuel o s cycles = Some (s', bufs) ->
    Forall2 (fun e pb =>
               count_msg MIDI_RT_STOP (pb_events pb)
               = (if stop_edge (fst e) (snd e) then 1 else 0)%nat /\
               count_start_continue (pb_events pb)
               = (if start_edge (fst e) (snd e) then 1 else 0)%nat)
      (edges (m_xstate s) (map cy_xstate cycles)) bufs.
Proof.
  intros Hflag Hall. induction Hall as [ | c cycles [Hn Hroom] _ IH];
    intros s s' bufs Hrun H; simpl in H.
  - injection H as _ <-. constructor.
  - destruct (process fuel o s c) as [[s1 pb] | ] eqn:E; [ | discriminate].
    destruct (run fuel o s1 cycles) as [[s2 bufs'] | ] eqn:E2; [ | discriminate].
    injection H as _ <-.
    pose proof (process_client_state _ _ _ _ _ _ E) as Hc.
    destruct (process_counts _ _ _ _ _ _ Hrun E) as (Hx & Hstop & Hsc).
    destruct (before_scheduler_counts o s c) as (Bstop & Bsc).
    rewrite Hflag, (reserve_cleared _ _ 1 Hn Hroom eq_refl) in Bstop, Bsc.
    simpl in Bstop, Bsc. rewrite andb_true_r in Bstop, Bsc.
    simpl. constructor.
    + simpl. split; congruence.
    + rewrite <- Hx. apply (IH s1 s2); [congruence | exact E2].
Qed.

Lemma count_start_continue_flat_map (es : list (jack_transport_state_t
                                                 * jack_transport_state_t))
  (bufs : list port_buffer) :
  Forall2 (fun e pb =>
             count_start_continue (pb_events pb)
             = (if start_edge (fst e) (snd e) then 1 else 0)%nat) es bufs ->
  count_start_continue (flat_map pb_events bufs)
  = length (filter (fun e => start_edge (fst e) (snd e)) es).
Proof.
  induction 1 as [ | e pb es bufs He _ IH]; [reflexivity | ].
  simpl. rewrite count_start_continue_app, He, IH.
  destruct (start_edge (fst e) (snd e)); reflexivity.
Qed.

(** From Starting, through any number of cycles that see Starting, into
    Rolling: no start edge. *)
Lemma no_start_edge_from_starting (k : nat) :
  filter (fun e => start_edge (fst e) (snd e))
    (edges JackTransportStarting
       (repeat JackTransportStarting k ++ [JackTransportRolling])) = [].
Proof. induction k as [ | k IH]; [reflexivity | simpl; exact IH]. Qed.

(** From Stopped, through any number of cycles that see Starting, into
    Rolling: one start edge. *)
Lemma one_start_edge_from_stopped (k : nat) :
  length (filter (fun e => start_edge (fst e) (snd e))
            (edges JackTransportStopped
               (repeat JackTransportStarting k ++ [JackTransportRolling])))
  = 1%nat.
Proof.
  destruct k as [ | k]; [reflexivity | ].
  simpl. rewrite no_start_edge_from_starting. reflexivity.
Qed.

End Edges.

(** C2.  With transport messages not suppressed, a running client, cycles
    of positive size whose buffer takes at least one event, and a tempo
    that lets every cycle end: along any sequence of cycles, the buffer of
    a cycle holds one Stop when the cycle sees the transport enter Stopped
    and none otherwise, and one Start or Continue on a start edge and none
    otherwise; in particular a passage from Stopped to Rolling, through any
    number of cycles that see Starting, emits exactly one Start or
    Continue in all. *)
Theorem state_edge_exactly_once (o : options) (s : app_state)
  (cycles : list cycle) :
  flag_set (msg_filter o) MSG_NO_TRANSPORT = false ->
  client_state s = Run ->
  Forall (fun c => 0 < cy_nframes c /\ (0 < cy_room c)%nat) cycles ->
  Forall (fun c => tempo_positive o (cy_xpos c)) cycles ->
  exists fuel0, forall fuel, (fuel0 <= fuel)%nat ->
    exists s' bufs,
      run fuel o s cycles = Some (s', bufs) /\
      Forall2 (fun e pb =>
                 count_msg MIDI_RT_STOP (pb_events pb)
                 = (if stop_edge (fst e) (snd e) then 1 else 0)%nat /\
                 count_start_continue (pb_events pb)
                 = (if start_edge (fst e) (snd e) then 1 else 0)%nat)
        (edges (m_xstate s) (map cy_xstate cycles)) bufs /\
      (m_xstate s = JackTransportStopped ->
       forall k : nat,
         map cy_xstate cycles
         = repeat JackTransportStarting k ++ [JackTransportRolling] ->
         count_start_continue (flat_map pb_events bufs) = 1%nat).
Proof.
  intros Hflag Hrun Hsize Hpos.
  apply run_total; [exact Hpos | ].
  intros fuel s' bufs H.
  pose proof (run_counts fuel o cycles Hflag Hsize s s' bufs Hrun H) as Hall.
  split; [exact Hall | ].
  intros Hstopped k Hk.
  rewrite (count_start_continue_flat_map
             (edges (m_xstate s) (map cy_xstate cycles))).
  - rewrite Hstopped, Hk. apply one_start_edge_from_stopped.
  - eapply Forall2_impl; [ | exact Hall]. intros e pb [_ He]. exact He.
Qed.

(** The scenario: Stopped, two cycles of Starting, then Rolling. *)
Lemma state_edge_exactly_once_witness :
  exists fuel0, forall fuel, (fuel0 <= fuel)%nat ->
    exists s' bufs,
      run fuel default_options initial_state
        [scenario_cycle JackTransportStarting 0;
         scenario_cycle JackTransportStarting 0;
         scenario_cycle JackTransportRolling 0] = Some (s', bufs) /\
      Forall2 (fun e pb =>
                 count_msg MIDI_RT_STOP (pb_events pb)
                 = (if stop_edge (fst e) (snd e) then 1 else 0)%nat /\
                 count_start_continue (pb_events pb)
                 = (if start_edge (fst e) (snd e) then 1 else 0)%nat)
        [(JackTransportStopped, JackTransportStarting);
         (JackTransportStarting, JackTransportStarting);
         (JackTransportStarting, JackTransportRolling)] bufs /\
      (m_xstate initial_state = JackTransportStopped ->
       forall k : nat,
         [JackTransportStarting; JackTransportStarting; JackTransportRolling]
         = repeat JackTransportStarting k ++ [JackTransportRolling] ->
         count_start_continue (flat_map pb_events bufs) = 1%nat).
Proof.
  apply (state_edge_exactly_once default_options initial_state
           [scenario_cycle JackTransportStarting 0;
            scenario_cycle JackTransportStarting 0;
            scenario_cycle JackTransportRolling 0]).
  - reflexivity.
  - reflexivity.
  - repeat constructor.
  - repeat constructor.
Defined.

(** ** Ticks on the grid *)

Section Grid.






End Grid.

(** ** Tick spacing *)





(** ** The running position *)

Section RunningPosition.





End RunningPosition.



(** ** The tempo of a cycle *)

Section Tempo.

Lemma Qltb_lt (a b : Q) : Qltb a b = true <-> (a < b)%Q.
Proof.
  unfold Qltb. rewrite negb_true_iff. split.
  - intro H. apply Qnot_le_lt. intro Hle.
    apply Qle_bool_iff in Hle. congruence.
  - intro H. destruct (Qle_bool b a) eqn:E; [ | reflexivity].
    apply Qle_bool_iff in E. exfalso. apply (Qlt_not_le _ _ H). exact E.
Qed.

Lemma Qltb_nlt (a b : Q) : Qltb a b = false <-> ~ (a < b)%Q.
Proof.
  rewrite <- Qltb_lt. destruct (Qltb a b); split; congruence.
Qed.

(** Without a tempo the scheduler returns at once, whatever the fuel. *)
Lemma send_clock_ticks_idle (fuel : nat) (o : options) (s : app_state)
  (c : cycle) (pb : port_buffer) :
  calc_samples_per_beat o (cy_xpos c) = None ->
  send_clock_ticks fuel o s c pb = Some (s, pb).
Proof.
  intro H. unfold send_clock_ticks. rewrite H.
  destruct (_ && _); [reflexivity | ].
  destruct (flag_set _ _); reflexivity.
Qed.

End Tempo.

(** C4.  The tempo of a cycle is chosen in this order.  With the force
    flag set and a positive default BPM, the default BPM alone is used,
    and no BBT frame offset.  Otherwise, with valid BBT fields, the
    master's beats per minute (and its frame offset, when that is valid).
    Otherwise a positive default BPM.  Otherwise there is no tempo: the
    callback returns, for any fuel, with what the state machine emitted
    and no scheduled tick.  A forced 60 BPM wins over a master at 140 BPM:
    at 48 kHz the ticks are 2000 samples apart. *)
Theorem tempo_priority (o : options) (xpos : jack_position_t) :
  let forced := force_bpm o <> 0 /\ (0 < user_bpm o)%Q in
  let master := flag_set (valid xpos) JackPositionBBT = true in
  (forced ->
   calc_samples_per_beat o xpos
   = Some ((inject_Z (frame_rate xpos) * 60 / user_bpm o)%Q, 0)) /\
  (~ forced -> master -> ~ (beats_per_minute xpos == 0)%Q ->
   calc_samples_per_beat o xpos
   = Some ((inject_Z (frame_rate xpos) * 60 / beats_per_minute xpos)%Q,
           if flag_set (valid xpos) JackBBTFrameOffset
           then bbt_offset xpos else 0)) /\
  (~ forced -> ~ master -> (0 < user_bpm o)%Q ->
   calc_samples_per_beat o xpos
   = Some ((inject_Z (frame_rate xpos) * 60 / user_bpm o)%Q, 0)) /\
  (~ forced -> ~ master -> ~ (0 < user_bpm o)%Q ->
   calc_samples_per_beat o xpos = None /\
   forall (fuel : nat) (s : app_state) (c : cycle),
     client_state s = Run -> cy_xpos c = xpos ->
     process fuel o s c = Some (before_scheduler o s c)) /\
  (forall frame : Z,
      calc_samples_per_beat forced_60 (bbt_position frame 140 48000)
      = Some ((inject_Z 48000 * 60 / 60)%Q, 0)) /\
  option_map (fun r => pb_events (snd r))
    (process 3 forced_60 initial_state
       (mk_cycle 4096 JackTransportRolling (bbt_position 0 140 48000) 16))
  = Some [mk_event 0 [MIDI_RT_START]; mk_event 0 [MIDI_RT_CLOCK];
          mk_event 2000 [MIDI_RT_CLOCK]; mk_event 4000 [MIDI_RT_CLOCK]].
Proof.
  intros forced master. unfold forced, master. clear forced master.
  assert (Hforced : negb (force_bpm o =? 0) && Qltb 0 (user_bpm o) = true
                    <-> force_bpm o <> 0 /\ (0 < user_bpm o)%Q).
  { rewrite andb_true_iff, negb_true_iff, Z.eqb_neq, Qltb_lt. reflexivity. }
  assert (Hnot : ~ (force_bpm o <> 0 /\ (0 < user_bpm o)%Q) ->
                 negb (force_bpm o =? 0) && Qltb 0 (user_bpm o) = false).
  { intro H. destruct (negb (force_bpm o =? 0) && Qltb 0 (user_bpm o)) eqn:E;
      [ | reflexivity].
    exfalso. apply H, Hforced. reflexivity. }
  assert (Hidle : ~ (force_bpm o <> 0 /\ (0 < user_bpm o)%Q) ->
                  flag_set (valid xpos) JackPositionBBT <> true ->
                  ~ (0 < user_bpm o)%Q ->
                  calc_samples_per_beat o xpos = None).
  { intros Hf Hm Hu. unfold calc_samples_per_beat. rewrite (Hnot Hf).
    apply not_true_is_false in Hm. rewrite Hm.
    apply Qltb_nlt in Hu. rewrite Hu. reflexivity. }
  split; [ | split; [ | split; [ | split; [split | split]]]].
  - intro Hf. unfold calc_samples_per_beat.
    apply Hforced in Hf. rewrite Hf. reflexivity.
  - intros Hf Hm _. unfold calc_samples_per_beat.
    rewrite (Hnot Hf), Hm. reflexivity.
  - intros Hf Hm Hu. unfold calc_samples_per_beat. rewrite (Hnot Hf).
    apply not_true_is_false in Hm. rewrite Hm.
    apply Qltb_lt in Hu. rewrite Hu. reflexivity.
  - apply Hidle; assumption.
  - intros fuel s c Hrun <-. rewrite process_running by exact Hrun.
    rewrite send_clock_ticks_idle by (apply Hidle; assumption).
    destruct (before_scheduler o s c). reflexivity.
  - intro frame. reflexivity.
  - vm_compute. reflexivity.
Qed.

(** The forced tempo of the scenario. *)
Lemma tempo_priority_witness :
  calc_samples_per_beat forced_60 (bbt_position 0 140 48000)
  = Some ((inject_Z 48000 * 60 / 60)%Q, 0).
Proof.
  apply (proj1 (tempo_priority forced_60 (bbt_position 0 140 48000))).
  split; [intro H; discriminate H | reflexivity].
Defined.

(** ** Entering Starting and Rolling *)

Section StartEdge.

(** What the state machine writes on an edge into Rolling or Starting,
    when the buffer takes two events. *)
Lemma before_scheduler_start_events (o : options) (s : app_state) (c : cycle) :
  flag_set (msg_filter o) MSG_NO_TRANSPORT = false ->
  0 < cy_nframes c -> (1 < cy_room c)%nat ->
  cy_xstate c <> m_xstate s ->
  cy_xstate c = JackTransportRolling \/ cy_xstate c = JackTransportStarting ->
  pb_events (snd (before_scheduler o s c))
  = (if xstate_eqb (m_xstate s) JackTransportStarting then []
     else [mk_event 0 [if frame (cy_xpos c) =? 0
                       then MIDI_RT_START else MIDI_RT_CONTINUE]])
    ++ (if xstate_eqb (cy_xstate c) JackTransportRolling
           && negb (flag_set (msg_filter o) MSG_NO_CLOCK)
        then [mk_event 0 [MIDI_RT_CLOCK]] else []).
Proof.
  intros Hflag Hn Hroom Hedge Hstate.
  assert (Hres : jack_midi_event_reserve
                   (jack_midi_clear_buffer (cy_nframes c) (cy_room c)) 0 1
                 = true)
    by (apply reserve_cleared; lia).
  assert (Hres2 : forall data,
             jack_midi_event_reserve
               (event_written
                  (jack_midi_clear_buffer (cy_nframes c) (cy_room c)) 0 data)
               0 1 = true)
    by (intro data; apply reserve_after_written; simpl; lia).
  unfold before_scheduler, send_transport_messages, send_position_updates.
  cbn [m_xstate set_last_xpos].
  apply xstate_eqb_neq in Hedge. rewrite Hedge, andb_false_r.
  cbn [negb snd]. unfold send_start_stop_continue.
  cbn [m_xstate set_last_xpos]. rewrite Hflag. cbn [negb].
  destruct Hstate as [-> | ->]; cbn [xstate_eqb andb];
    destruct (xstate_eqb (m_xstate s) JackTransportStarting);
    try destruct (frame (cy_xpos c) =? 0);
    try destruct (flag_set (msg_filter o) MSG_NO_CLOCK); cbn [negb app];
    repeat (first [ rewrite (send_rt_message_accepted _ _ _ Hres)
                  | rewrite (send_rt_message_accepted _ _ _ (Hres2 _)) ]);
    reflexivity.
Qed.

End StartEdge.

(** C5, amended.  On a state edge into Rolling or Starting, with transport
    messages not suppressed and a buffer that takes two events: when the
    state seen before was not Starting, the first event of the cycle is
    one Start (frame 0) or one Continue (any other frame) at offset 0, and
    nothing else decides between them; when it was Starting, neither is
    emitted.  When the new state is Rolling, one Clock tick at offset 0
    comes next, unless Clock messages are suppressed; when the new state
    is Starting it does not.  Whatever follows are the scheduler's Clock
    ticks, none at all on an edge into Starting when clocks are not sent
    while stopped. *)
Theorem start_or_continue_by_frame (o : options) (s : app_state) (c : cycle) :
  flag_set (msg_filter o) MSG_NO_TRANSPORT = false ->
  client_state s = Run ->
  0 < cy_nframes c -> (1 < cy_room c)%nat ->
  tempo_positive o (cy_xpos c) ->
  cy_xstate c <> m_xstate s ->
  cy_xstate c = JackTransportRolling \/ cy_xstate c = JackTransportStarting ->
  exists fuel0, forall fuel, (fuel0 <= fuel)%nat ->
    exists s' pb ticks,
      process fuel o s c = Some (s', pb) /\
      pb_events pb
      = (if xstate_eqb (m_xstate s) JackTransportStarting then []
         else [mk_event 0 [if frame (cy_xpos c) =? 0
                           then MIDI_RT_START else MIDI_RT_CONTINUE]])
        ++ (if xstate_eqb (cy_xstate c) JackTransportRolling
               && negb (flag_set (msg_filter o) MSG_NO_CLOCK)
            then [mk_event 0 [MIDI_RT_CLOCK]] else [])
        ++ ticks /\
      Forall (fun e => ev_data e = [MIDI_RT_CLOCK]) ticks /\
      (cy_xstate c = JackTransportStarting ->
       flag_set (msg_filter o) MSG_NO_CONT_CLOCK = true -> ticks = []).
Proof.
  intros Hflag Hrun Hn Hroom Hpos Hedge Hstate.
  pose proof (before_scheduler_start_events o s c Hflag Hn Hroom Hedge Hstate)
    as Hev.
  destruct (negb (xstate_eqb (cy_xstate c) JackTransportRolling)
            && flag_set (msg_filter o) MSG_NO_CONT_CLOCK) eqn:Hidle.
  - exists 0%nat. intros fuel _.
    exists (fst (before_scheduler o s c)), (snd (before_scheduler o s c)), [].
    rewrite process_running by exact Hrun.
    unfold send_clock_ticks. rewrite Hidle.
    rewrite Hev, app_nil_r. repeat split; auto.
  - destruct (process_terminates o s c Hpos) as (fuel0 & [s' pb] & H).
    exists fuel0. intros fuel Hle. specialize (H fuel Hle).
    pose proof H as H'. rewrite process_running in H' by exact Hrun.
    apply send_clock_ticks_scan in H'.
    destruct H' as (_ & _ & _ & _ & n & evs & _ & Hevs & Hclk & _).
    exists s', pb, evs. split; [exact H | split; [ | split]].
    + rewrite Hevs, Hev, app_assoc. reflexivity.
    + exact Hclk.
    + intros Hs Hc. rewrite Hs, Hc in Hidle. discriminate.
Qed.

(** From Stopped into Rolling at frame 0, on the scenario's cycle. *)
Lemma start_or_continue_by_frame_witness :
  exists fuel0, forall fuel, (fuel0 <= fuel)%nat ->
    exists s' pb ticks,
      process fuel default_options (seen JackTransportStopped)
        (scenario_cycle JackTransportRolling 0) = Some (s', pb) /\
      pb_events pb
      = [mk_event 0 [MIDI_RT_START]] ++ [mk_event 0 [MIDI_RT_CLOCK]] ++ ticks /\
      Forall (fun e => ev_data e = [MIDI_RT_CLOCK]) ticks /\
      (JackTransportRolling = JackTransportStarting ->
       flag_set (msg_filter default_options) MSG_NO_CONT_CLOCK = true ->
       ticks = []).
Proof.
  apply (start_or_continue_by_frame default_options
           (seen JackTransportStopped) (scenario_cycle JackTransportRolling 0)).
  - reflexivity.
  - reflexivity.
  - reflexivity.
  - simpl. lia.
  - reflexivity.
  - discriminate.
  - left. reflexivity.
Defined.

(** C5 as stated fails twice: an edge from Starting into Rolling emits no
    Start and no Continue, and the Start of an edge from Stopped into
    Starting is not followed by a Clock tick. *)
Lemma start_or_continue_counterexample :
  (exists s' pb,
      process 2 default_options (seen JackTransportStarting)
        (scenario_cycle JackTransportRolling 0) = Some (s', pb) /\
      pb_events pb = [mk_event 0 [MIDI_RT_CLOCK]] /\
      count_start_continue (pb_events pb) = 0%nat) /\
  (exists s' pb,
      process 2 default_options (seen JackTransportStopped)
        (scenario_cycle JackTransportStarting 0) = Some (s', pb) /\
      pb_events pb = [mk_event 0 [MIDI_RT_START]] /\
      count_msg MIDI_RT_CLOCK (pb_events pb) = 0%nat).
Proof.
  split; vm_compute; eexists; eexists;
    (split; [reflexivity | split; reflexivity]).
Qed.

(** C6, amended.  The pass-through is the cycle after Starting was seen:
    whatever the transport does then (in particular on the edge from
    Starting into Rolling) no Start and no Continue is emitted.  The edge
    from Rolling to Starting is not one: it emits exactly one Start or
    Continue, when transport messages are not suppressed and the buffer
    takes an event. *)
Theorem starting_window_pass_through (o : options) (s : app_state)
  (c : cycle) :
  client_state s = Run ->
  tempo_positive o (cy_xpos c) ->
  exists fuel0, forall fuel, (fuel0 <= fuel)%nat ->
    exists s' pb,
      process fuel o s c = Some (s', pb) /\
      (m_xstate s = JackTransportStarting ->
       count_start_continue (pb_events pb) = 0%nat) /\
      (m_xstate s = JackTransportRolling ->
       cy_xstate c = JackTransportStarting ->
       flag_set (msg_filter o) MSG_NO_TRANSPORT = false ->
       0 < cy_nframes c -> (0 < cy_room c)%nat ->
       count_start_continue (pb_events pb) = 1%nat).
Proof.
  intros Hrun Hpos. apply process_total; [exact Hpos | ].
  intros fuel s' pb H.
  destruct (process_counts _ _ _ _ _ _ Hrun H) as (_ & _ & Hsc).
  destruct (before_scheduler_counts o s c) as (_ & Bsc).
  rewrite Hsc, Bsc. split.
  - intros ->. unfold start_edge.
    rewrite andb_false_r. reflexivity.
  - intros -> -> -> Hn Hroom. rewrite (reserve_cleared _ _ 1 Hn Hroom eq_refl).
    reflexivity.
Qed.

(** From Starting into Rolling, on the scenario's cycle. *)
Lemma starting_window_pass_through_witness :
  exists fuel0, forall fuel, (fuel0 <= fuel)%nat ->
    exists s' pb,
      process fuel default_options (seen JackTransportStarting)
        (scenario_cycle JackTransportRolling 0) = Some (s', pb) /\
      (JackTransportStarting = JackTransportStarting ->
       count_start_continue (pb_events pb) = 0%nat) /\
      (JackTransportStarting = JackTransportRolling ->
       JackTransportRolling = JackTransportStarting ->
       flag_set (msg_filter default_options) MSG_NO_TRANSPORT = false ->
       0 < 512 -> (0 < 16)%nat ->
       count_start_continue (pb_events pb) = 1%nat).
Proof.
  apply (starting_window_pass_through default_options
           (seen JackTransportStarting) (scenario_cycle JackTransportRolling 0)).
  - reflexivity.
  - reflexivity.
Defined.

(** C6 as stated fails: the edge from Rolling to Starting emits a Start. *)
Lemma rolling_to_starting_counterexample :
  exists s' pb,
    process 0 default_options (seen JackTransportRolling)
      (scenario_cycle JackTransportStarting 0) = Some (s', pb) /\
    pb_events pb = [mk_event 0 [MIDI_RT_START]] /\
    count_start_continue (pb_events pb) = 1%nat.
Proof.
  vm_compute. eexists. eexists. split; [reflexivity | split; reflexivity].
Qed.

(** ** No tick lost *)

Section ExactTicks.

Variable d : Q.
Hypothesis d_pos : (0 < d)%Q.





End ExactTicks.

(** ** Room in the buffer *)

Section Room.




End Room.

Section ExactRun.

Variables (o : options) (samples_per_beat : Q) (nframes : Z).
Hypothesis tempo_pos : (0 < samples_per_beat)%Q.
Hypothesis nframes_pos : 0 < nframes.
Hypothesis transport_on : flag_set (msg_filter o) MSG_NO_TRANSPORT = false.
Hypothesis clock_on : flag_set (msg_filter o) MSG_NO_CLOCK = false.

Let d : Q := clock_tick_interval samples_per_beat.











End ExactRun.



(** ** Song position *)

Section SongPosition.





Lemma land_0x7f (z : Z) : Z.land z 0x7f = z mod 128.
Proof. change 0x7f with (Z.ones 7). apply Z.land_ones. lia. Qed.

Lemma song_position_bytes (n : Z) :
  0 <= Z.land n 0x7f < 0x80 /\
  0 <= Z.land (Z.shiftr n 7) 0x7f < 0x80 /\
  (0 <= n < 16384 ->
   Z.land n 0x7f + 128 * Z.land (Z.shiftr n 7) 0x7f = n).
Proof.
  rewrite !land_0x7f, Z.shiftr_div_pow2 by lia.
  change (2 ^ 7) with 128.
  split; [apply Z.mod_pos_bound; lia | split; [apply Z.mod_pos_bound; lia | ]].
  intro Hn. rewrite (Z.mod_small (n / 128)).
  - pose proof (Z.div_mod n 128). lia.
  - split; [apply Z.div_pos; lia | apply Z.div_lt_upper_bound; lia].
Qed.



End SongPosition.



Section Monotone.

Variables B P : Q.














End Monotone.




(** ** The analyzer *)

Section Analyzer.

Import MclkDump.

Lemma ull_small (z : Z) : 0 <= z < 2 ^ 64 -> ull z = z.
Proof. intro H. unfold ull. apply Z.mod_small. exact H. Qed.

(** A lone clock byte is stamped and queued when a record fits. *)
Lemma process_jmidi_event_clock (ev : midi_event) (mfcnt : Z)
  (rb : jack_ringbuffer_t) :
  ev_data ev = [0xf8] ->
  sizeof_timenfo <= jack_ringbuffer_write_space rb ->
  process_jmidi_event ev mfcnt rb
  = jack_ringbuffer_write rb (mk_timenfo 0xf8 (ull (mfcnt + ev_time ev))).
Proof.
  intros Hdata Hspace. unfold process_jmidi_event. rewrite Hdata. simpl.
  replace (jack_ringbuffer_write_space rb >=? sizeof_timenfo) with true
    by (symmetry; apply Z.geb_le; exact Hspace).
  reflexivity.
Qed.

(** Anything else is ignored. *)
Lemma process_jmidi_event_other (ev : midi_event) (mfcnt : Z)
  (rb : jack_ringbuffer_t) :
  ev_data ev <> [0xf8] -> process_jmidi_event ev mfcnt rb = rb.
Proof.
  intro Hdata. unfold process_jmidi_event.
  destruct ((Z.of_nat (length (ev_data ev)) =? 1)
            && (nth 0 (ev_data ev) 0 =? 0xf8)) eqn:E; [ | reflexivity].
  exfalso. apply andb_true_iff in E. destruct E as [E1 E2].
  apply Z.eqb_eq in E1, E2.
  destruct (ev_data ev) as [ | b [ | b' l]].
  - discriminate E1.
  - simpl in E2. subst b. apply Hdata. reflexivity.
  - cbn [length] in E1. lia.
Qed.

Lemma fdiv_pos (a b : Q) : (0 < b)%Q -> fdiv a b = Some (a / b)%Q.
Proof.
  intro H. unfold fdiv.
  destruct (Qeq_bool b 0) eqn:E; [ | reflexivity].
  apply Qeq_bool_iff in E. lra.
Qed.

Lemma fdiv_zero (a b : Q) : (b == 0)%Q -> fdiv a b = None.
Proof.
  intro H. unfold fdiv. apply Qeq_bool_iff in H. rewrite H. reflexivity.
Qed.

(** The report for a clock record [t] read after the record [pt]. *)
Lemma print_tick_clock (j_samplerate : Z) (pt t : timenfo) :
  msg t = 0xf8 ->
  0 <= tme pt < tme t -> tme t < 2 ^ 64 ->
  print_tick j_samplerate pt t
  = [mk_report
       (Some (inject_Z j_samplerate * 60
              / (inject_Z (tme t - tme pt) * 24))%Q)
       (as_long_long (tme t))].
Proof.
  intros Hmsg Hlt Hmax. unfold print_tick. rewrite Hmsg. simpl.
  rewrite ull_small by lia. rewrite fdiv_pos; [reflexivity | ].
  assert (H : (0 < inject_Z (tme t - tme pt))%Q)
    by (change 0%Q with (inject_Z 0); rewrite <- Zlt_Qlt; lia).
  lra.
Qed.

(** The queue holds whole records: [mqlen] is their number. *)
Lemma mqlen_length (rb : jack_ringbuffer_t) :
  Z.to_nat (jack_ringbuffer_read_space rb / sizeof_timenfo)
  = length (rb_data rb).
Proof.
  unfold jack_ringbuffer_read_space, sizeof_timenfo.
  rewrite Z.mul_comm, Z.div_mul by lia. apply Nat2Z.id.
Qed.

(** Draining reads the records in arrival order; each clock record is
    reported against the record read just before it. *)
Lemma drain_cons (j_samplerate : Z) (mqlen : nat) (pt t : timenfo)
  (size : Z) (rest : list timenfo) :
  drain j_samplerate (S mqlen) pt (mk_ringbuffer size (t :: rest))
  = let '(pt', rb', out) :=
        drain j_samplerate mqlen t (mk_ringbuffer size rest) in
    (pt', rb', print_tick j_samplerate pt t ++ out).
Proof. reflexivity. Qed.


(** What draining a whole queue returns: the last record read, the empty
    queue, and the reports. *)
Lemma drain_app (j_samplerate : Z) (size : Z) (l1 l2 : list timenfo) :
  forall pt : timenfo,
    drain j_samplerate (length (l1 ++ l2)) pt (mk_ringbuffer size (l1 ++ l2))
    = let '(pt1, _, out1) :=
          drain j_samplerate (length l1) pt (mk_ringbuffer size l1) in
      let '(pt2, rb2, out2) :=
          drain j_samplerate (length l2) pt1 (mk_ringbuffer size l2) in
      (pt2, rb2, out1 ++ out2).
Proof.
  induction l1 as [ | t l1 IH]; intro pt.
  - simpl.
    destruct (drain j_samplerate (length l2) pt (mk_ringbuffer size l2))
      as [[pt2 rb2] out2].
    reflexivity.
  - cbn [app length]. rewrite !drain_cons, IH.
    destruct (drain j_samplerate (length l1) t (mk_ringbuffer size l1))
      as [[pt1 rb1] out1].
    destruct (drain j_samplerate (length l2) pt1 (mk_ringbuffer size l2))
      as [[pt2 rb2] out2].
    rewrite app_assoc. reflexivity.
Qed.

Lemma last_nonempty (A : Type) (l : list A) (a d d' : A) :
  last (a :: l) d = last (a :: l) d'.
Proof.
  revert a. induction l as [ | b l IH]; intro a; [reflexivity | ].
  change (last (b :: l) d = last (b :: l) d'). apply IH.
Qed.

Lemma drain_last (j_samplerate : Z) (size : Z) (l : list timenfo) :
  forall pt : timenfo,
    fst (fst (drain j_samplerate (length l) pt (mk_ringbuffer size l)))
    = last l pt.
Proof.
  induction l as [ | t l IH]; intro pt; [reflexivity | ].
  cbn [length]. rewrite drain_cons.
  specialize (IH t).
  destruct (drain j_samplerate (length l) t (mk_ringbuffer size l))
    as [[pt1 rb1] out1].
  simpl in IH |- *. rewrite IH.
  destruct l as [ | t0 l]; [reflexivity | ].
  change (last (t :: t0 :: l) pt) with (last (t0 :: l) pt).
  apply last_nonempty.
Qed.

(** A clock record [t1] is reported against the record read just before
    it: the last of those queued ahead of it or, when it is the first of
    the queue, the record [pt] left by the turn before.  Its report comes
    after the reports of the records ahead of it. *)
Lemma main_loop_body_pair (j_samplerate : Z) (size : Z) (pt t1 : timenfo)
  (pre rest : list timenfo) :
  msg t1 = 0xf8 ->
  0 <= tme (last pre pt) < tme t1 -> tme t1 < 2 ^ 64 ->
  exists rb0 before pt' rb' after,
    drain j_samplerate (length pre) pt (mk_ringbuffer size pre)
    = (last pre pt, rb0, before) /\
    main_loop_body j_samplerate pt (mk_ringbuffer size (pre ++ t1 :: rest))
    = (pt', rb',
       before
       ++ mk_report
            (Some (inject_Z j_samplerate * 60
                   / (inject_Z (tme t1 - tme (last pre pt)) * 24))%Q)
            (as_long_long (tme t1))
       :: after).
Proof.
  intros Hmsg Hlt Hmax. unfold main_loop_body. rewrite mqlen_length.
  cbn [rb_data].
  pose proof (drain_last j_samplerate size pre pt) as Hlast.
  destruct (drain j_samplerate (length pre) pt (mk_ringbuffer size pre))
    as [[pt0 rb0] before] eqn:Hd.
  simpl in Hlast. subst pt0.
  rewrite drain_app, Hd. cbn [length]. rewrite drain_cons.
  destruct (drain j_samplerate (length rest) t1 (mk_ringbuffer size rest))
    as [[pt' rb'] after].
  rewrite (print_tick_clock j_samplerate (last pre pt) t1 Hmsg Hlt Hmax).
  exists rb0, before, pt', rb', after. split; reflexivity.
Qed.

(** A turn of the loop leaves the last record it read in [pt]. *)
Lemma main_loop_body_last (j_samplerate : Z) (pt : timenfo)
  (rb : jack_ringbuffer_t) :
  fst (fst (main_loop_body j_samplerate pt rb)) = last (rb_data rb) pt.
Proof.
  unfold main_loop_body. rewrite mqlen_length.
  destruct rb as [size data]. apply drain_last.
Qed.

End Analyzer.

(** C9.  The producer stamps a lone 0xF8 byte with the cycle's sample
    counter plus the event's offset (modulo 2^64, that is without change
    in range) and queues it.  The consumer reports a clock record t1
    against the record t0 read just before it (the one queued ahead of it,
    or the last one of the turn before): for t0 < t1,
    bpm = sampleRate * 60 / ((t1 - t0) * 24), after the reports of the
    records ahead.  Clock bytes at 0, 500 and 1000 at 48 kHz are queued
    with these timestamps, and the reports at 500 and at 1000 give
    240 BPM, in exact and in binary64 arithmetic. *)
Theorem clock_timestamps_and_bpm :
  (forall (ev : midi_event) (mfcnt : Z) (rb : MclkDump.jack_ringbuffer_t),
      ev_data ev = [0xF8] ->
      MclkDump.sizeof_timenfo <= MclkDump.jack_ringbuffer_write_space rb ->
      MclkDump.rb_data (MclkDump.process_jmidi_event ev mfcnt rb)
      = MclkDump.rb_data rb
        ++ [MclkDump.mk_timenfo 0xF8 (MclkDump.ull (mfcnt + ev_time ev))] /\
      (0 <= mfcnt + ev_time ev < 2 ^ 64 ->
       MclkDump.ull (mfcnt + ev_time ev) = mfcnt + ev_time ev)) /\
  (forall (j_samplerate size : Z) (pt t1 : MclkDump.timenfo)
          (pre rest : list MclkDump.timenfo),
      let t0 := last pre pt in
      MclkDump.msg t1 = 0xF8 ->
      0 <= MclkDump.tme t0 < MclkDump.tme t1 -> MclkDump.tme t1 < 2 ^ 64 ->
      exists rb0 before pt' rb' after,
        MclkDump.drain j_samplerate (length pre) pt
          (MclkDump.mk_ringbuffer size pre) = (t0, rb0, before) /\
        MclkDump.main_loop_body j_samplerate pt
          (MclkDump.mk_ringbuffer size (pre ++ t1 :: rest))
        = (pt', rb',
           before
           ++ MclkDump.mk_report
                (Some (inject_Z j_samplerate * 60
                       / (inject_Z (MclkDump.tme t1 - MclkDump.tme t0) * 24))%Q)
                (MclkDump.as_long_long (MclkDump.tme t1))
           :: after)) /\
  (forall (j_samplerate : Z) (pt : MclkDump.timenfo)
          (rb : MclkDump.jack_ringbuffer_t),
      fst (fst (MclkDump.main_loop_body j_samplerate pt rb))
      = last (MclkDump.rb_data rb) pt) /\
  MclkDump.rb_data (MclkDump.rb clocks_0_500_1000)
  = [MclkDump.mk_timenfo 0xF8 0; MclkDump.mk_timenfo 0xF8 500;
     MclkDump.mk_timenfo 0xF8 1000] /\
  map (fun r => (option_map Qred (MclkDump.bpm r), MclkDump.at_time r))
    (snd (MclkDump.main_loop_body 48000 MclkDump.pt_zero
            (MclkDump.rb clocks_0_500_1000)))
  = [(None, 0); (Some 240%Q, 500); (Some 240%Q, 1000)] /\
  option_map Qred (Binary64.to_Q (Binary64.bpm 48000 (500 - 0)))
  = Some 240%Q.
Proof.
  split; [ | split; [ | split; [ | split; [ | split]]]].
  - intros ev mfcnt rb Hdata Hspace. split.
    + rewrite process_jmidi_event_clock by assumption. reflexivity.
    + apply ull_small.
  - intros j_samplerate size pt t1 pre rest t0 Hmsg Hlt Hmax.
    apply main_loop_body_pair; assumption.
  - apply main_loop_body_last.
  - vm_compute. reflexivity.
  - vm_compute. reflexivity.
  - vm_compute. reflexivity.
Qed.

(** A clock byte at offset 500 of the cycle that starts at sample 0. *)
Lemma clock_timestamps_and_bpm_witness :
  MclkDump.rb_data
    (MclkDump.process_jmidi_event (clock_byte 500) 0
       (MclkDump.rb analyzer_start))
  = [MclkDump.mk_timenfo 0xF8 500].
Proof.
  apply (proj1 (proj1 clock_timestamps_and_bpm (clock_byte 500) 0
                  (MclkDump.rb analyzer_start) eq_refl
                  ltac:(vm_compute; intro H; discriminate H))).
Defined.

(** C10.  The record remembered before the first read is all zeros, so
    the first clock record, with timestamp t, is reported at once, against
    a previous timestamp of 0: bpm = sampleRate * 60 / (t * 24) when
    t > 0, and a division by zero when t = 0. *)
Theorem first_clock_against_zero (j_samplerate size : Z)
  (t : MclkDump.timenfo) (rest : list MclkDump.timenfo) :
  MclkDump.msg t = 0xF8 ->
  0 <= MclkDump.tme t < 2 ^ 64 ->
  exists pt' rb' after,
    MclkDump.main_loop_body j_samplerate MclkDump.pt_zero
      (MclkDump.mk_ringbuffer size (t :: rest))
    = (pt', rb',
       MclkDump.mk_report
         (MclkDump.fdiv (inject_Z j_samplerate * 60)
            (inject_Z (MclkDump.tme t - 0) * 24))
         (MclkDump.as_long_long (MclkDump.tme t))
       :: after) /\
    (0 < MclkDump.tme t ->
     MclkDump.fdiv (inject_Z j_samplerate * 60)
       (inject_Z (MclkDump.tme t - 0) * 24)
     = Some (inject_Z j_samplerate * 60
             / (inject_Z (MclkDump.tme t - 0) * 24))%Q) /\
    (MclkDump.tme t = 0 ->
     MclkDump.fdiv (inject_Z j_samplerate * 60)
       (inject_Z (MclkDump.tme t - 0) * 24) = None).
Proof.
  intros Hmsg Hrange. unfold MclkDump.main_loop_body.
  rewrite mqlen_length. cbn [MclkDump.rb_data length].
  rewrite drain_cons.
  destruct (MclkDump.drain j_samplerate (length rest) t
              (MclkDump.mk_ringbuffer size rest)) as [[pt' rb'] after].
  exists pt', rb', after. split; [ | split].
  - unfold MclkDump.print_tick. rewrite Hmsg. cbn [Z.eqb Pos.eqb app].
    cbn [MclkDump.tme MclkDump.pt_zero].
    rewrite ull_small by lia. reflexivity.
  - intro Hpos. apply fdiv_pos.
    assert (H : (0 < inject_Z (MclkDump.tme t - 0))%Q)
      by (change 0%Q with (inject_Z 0); rewrite <- Zlt_Qlt; lia).
    lra.
  - intro Hzero. apply fdiv_zero. rewrite Hzero. reflexivity.
Qed.

(** The first clock byte arrives at sample 500, at 48 kHz. *)
Lemma first_clock_against_zero_witness :
  exists pt' rb' after,
    MclkDump.main_loop_body 48000 MclkDump.pt_zero
      (MclkDump.mk_ringbuffer 511 [MclkDump.mk_timenfo 0xF8 500])
    = (pt', rb',
       MclkDump.mk_report
         (MclkDump.fdiv (inject_Z 48000 * 60) (inject_Z (500 - 0) * 24))
         (MclkDump.as_long_long 500)
       :: after) /\
    (0 < 500 ->
     MclkDump.fdiv (inject_Z 48000 * 60) (inject_Z (500 - 0) * 24)
     = Some (inject_Z 48000 * 60 / (inject_Z (500 - 0) * 24))%Q) /\
    (500 = 0 ->
     MclkDump.fdiv (inject_Z 48000 * 60) (inject_Z (500 - 0) * 24) = None).
Proof.
  apply (first_clock_against_zero 48000 511 (MclkDump.mk_timenfo 0xF8 500) []).
  - reflexivity.
  - split; [intro H; discriminate H | reflexivity].
Defined.

(** ** The idealisation, checked on binary64

    On the scenarios the binary64 scheduler and the exact one place the
    same ticks: at 120 BPM, where the interval is the integer 1000; at
    140 BPM, where it is 6000/7 and every addition rounds; and at 60 BPM
    and 44.1 kHz. *)

Lemma binary64_agrees_120 :
  binary64_ticks 2 48000 120 512 10 = exact_ticks 2 48000 120 512 10.
Proof. vm_compute. reflexivity. Qed.

Lemma binary64_agrees_140 :
  binary64_ticks 3 48000 140 512 100 = exact_ticks 3 48000 140 512 100.
Proof. vm_compute. reflexivity. Qed.

Lemma binary64_agrees_60 :
  binary64_ticks 3 44100 60 1024 50 = exact_ticks 3 44100 60 1024 50.
Proof. vm_compute. reflexivity. Qed.

Lemma binary64_interval_120 :
  option_map Qred (Binary64.to_Q (Binary64.clock_tick_interval 48000 120))
  = Some 1000%Q.
Proof. vm_compute. reflexivity. Qed.

(** ** The command line *)

Section CommandLine.

Lemma decode_switches_settings (opts : list getopt_result) :
  forall o : options,
    forallb is_setting opts = true ->
    decode_switches opts o
    = inr {| user_bpm := last_bpm opts (user_bpm o);
             force_bpm := if given "B" opts then 1 else force_bpm o;
             msg_filter :=
               Z.lor (msg_filter o)
                 (Z.lor (if given "P" opts then MSG_NO_POSITION else 0)
                        (if given "T" opts then MSG_NO_TRANSPORT else 0)) |}.
Proof.
  induction opts as [ | r opts IH]; intros o Hall.
  - destruct o as [u f m]. simpl. rewrite Z.lor_0_r. reflexivity.
  - cbn [forallb] in Hall. apply andb_true_iff in Hall.
    destruct Hall as [Hr Hall].
    unfold given, last_bpm in *. cbn [decode_switches existsb fold_left].
    unfold is_setting in Hr.
    destruct (opt_c r =? "b")%char eqn:Eb.
    { apply Ascii.eqb_eq in Eb. rewrite Eb. rewrite (IH _ Hall).
      cbn [user_bpm force_bpm msg_filter Ascii.eqb Bool.eqb orb andb].
      reflexivity. }
    destruct (opt_c r =? "B")%char eqn:EB.
    { apply Ascii.eqb_eq in EB. rewrite EB. rewrite (IH _ Hall).
      cbn [user_bpm force_bpm msg_filter Ascii.eqb Bool.eqb orb andb].
      clear IH. destruct (existsb _ opts); reflexivity. }
    destruct (opt_c r =? "P")%char eqn:EP.
    { apply Ascii.eqb_eq in EP. rewrite EP. rewrite (IH _ Hall).
      cbn [user_bpm force_bpm msg_filter Ascii.eqb Bool.eqb orb andb].
      clear IH.
      repeat match goal with
             | |- context [existsb ?f opts] => destruct (existsb f opts)
             end;
        rewrite <- Z.lor_assoc; reflexivity. }
    destruct (opt_c r =? "T")%char eqn:ET; [ | discriminate Hr].
    rewrite (IH _ Hall).
    cbn [user_bpm force_bpm msg_filter Ascii.eqb Bool.eqb orb andb].
    clear IH.
    repeat match goal with
           | |- context [existsb ?f opts] => destruct (existsb f opts)
           end;
      rewrite <- Z.lor_assoc; reflexivity.
Qed.

Lemma decode_switches_app (pre : list getopt_result) :
  forall (o : options) (post : list getopt_result),
    forallb is_setting pre = true ->
    exists o', decode_switches (pre ++ post) o = decode_switches post o'.
Proof.
  induction pre as [ | r pre IH]; intros o post Hall.
  - exists o. reflexivity.
  - cbn [forallb] in Hall. apply andb_true_iff in Hall.
    destruct Hall as [Hr Hall]. unfold is_setting in Hr.
    cbn [app decode_switches].
    destruct (opt_c r =? "b")%char; [apply IH; exact Hall | ].
    destruct (opt_c r =? "B")%char; [apply IH; exact Hall | ].
    destruct (opt_c r =? "P")%char; [apply IH; exact Hall | ].
    destruct (opt_c r =? "T")%char; [apply IH; exact Hall | discriminate Hr].
Qed.

End CommandLine.

(** X2. The options after the command line. When every option is one of [-b],
    [-B], [-P], [-T], [decode_switches] returns, and from the defaults: the
    default tempo is the argument of the last [-b] (0 without one), the tempo
    is forced exactly when [-B] is given, position and transport messages are
    suppressed exactly when [-P] and [-T] are given, and, whatever the options,
    clock messages are not suppressed and the clock does not continue while the
    transport is not rolling. *)
Theorem decode_switches_options (opts : list getopt_result) :
  forallb is_setting opts = true ->
  exists o : options,
    decode_switches opts default_options = inr o /\
    user_bpm o = last_bpm opts 0 /\
    (force_bpm o =? 0) = negb (given "B" opts) /\
    flag_set (msg_filter o) MSG_NO_POSITION = given "P" opts /\
    flag_set (msg_filter o) MSG_NO_TRANSPORT = given "T" opts /\
    flag_set (msg_filter o) MSG_NO_CLOCK = false /\
    flag_set (msg_filter o) MSG_NO_CONT_CLOCK = true.
Proof.
  intro Hall. eexists. split; [apply decode_switches_settings; exact Hall | ].
  cbn [user_bpm force_bpm msg_filter default_options].
  split; [reflexivity | ].
  destruct (given "B" opts), (given "P" opts), (given "T" opts);
    repeat split; reflexivity.
Qed.

(** [-b 60 -B -T] *)
Lemma decode_switches_options_witness :
  exists o : options,
    decode_switches
      [mk_getopt "b" 60; mk_getopt "B" 0; mk_getopt "T" 0] default_options
    = inr o /\
    user_bpm o = 60%Q /\
    (force_bpm o =? 0) = false /\
    flag_set (msg_filter o) MSG_NO_POSITION = false /\
    flag_set (msg_filter o) MSG_NO_TRANSPORT = true /\
    flag_set (msg_filter o) MSG_NO_CLOCK = false /\
    flag_set (msg_filter o) MSG_NO_CONT_CLOCK = true.
Proof.
  apply (decode_switches_options
           [mk_getopt "b" 60; mk_getopt "B" 0; mk_getopt "T" 0]).
  reflexivity.
Defined.

(** X3. The first option that is not a setting ends the program, whatever comes
    before and after it: [-V] and [-h] with status 0, anything else with
    [EXIT_FAILURE]; the options are not returned. *)
Theorem decode_switches_exits (pre post : list getopt_result)
  (r : getopt_result) (o : options) :
  forallb is_setting pre = true ->
  is_setting r = false ->
  decode_switches (pre ++ r :: post) o
  = inl (if ((opt_c r =? "V") || (opt_c r =? "h"))%char then 0
         else EXIT_FAILURE).
Proof.
  intros Hpre Hr.
  destruct (decode_switches_app pre o (r :: post) Hpre) as [o' ->].
  unfold is_setting in Hr. cbn [decode_switches].
  destruct (opt_c r =? "b")%char; [discriminate Hr | ].
  destruct (opt_c r =? "B")%char; [discriminate Hr | ].
  destruct (opt_c r =? "P")%char; [discriminate Hr | ].
  destruct (opt_c r =? "T")%char; [discriminate Hr | ].
  destruct (opt_c r =? "V")%char; [reflexivity | ].
  destruct (opt_c r =? "h")%char; reflexivity.
Qed.

(** [-T -x -b 120]: the unknown option ends the program. *)
Lemma decode_switches_exits_witness :
  decode_switches
    ([mk_getopt "T" 0] ++ mk_getopt "?" 0 :: [mk_getopt "b" 120])
    default_options
  = inl EXIT_FAILURE.
Proof.
  apply (decode_switches_exits [mk_getopt "T" 0] [mk_getopt "b" 120]
           (mk_getopt "?" 0) default_options); reflexivity.
Defined.

(** ** What the callback never sends *)

Section Never.

Lemma run_Forall2 (P : cycle -> port_buffer -> Prop) (fuel : nat)
  (o : options) :
  (forall s c s' pb, process fuel o s c = Some (s', pb) -> P c pb) ->
  forall (cycles : list cycle) (s s' : app_state) (bufs : list port_buffer),
    run fuel o s cycles = Some (s', bufs) -> Forall2 P cycles bufs.
Proof.
  intro HP. induction cycles as [ | c cycles IH]; intros s s' bufs H;
    simpl in H.
  - injection H as _ <-. constructor.
  - destruct (process fuel o s c) as [[s1 pb] | ] eqn:E; [ | discriminate].
    destruct (run fuel o s1 cycles) as [[s2 bufs'] | ] eqn:E2; [ | discriminate].
    injection H as _ <-. constructor.
    + apply (HP _ _ _ _ E).
    + apply (IH _ _ _ E2).
Qed.

(** Outside [Run] the callback only clears the buffer. *)
Lemma process_not_running (fuel : nat) (o : options) (s : app_state)
  (c : cycle) :
  client_state s <> Run -> process fuel o s c = Some (s, cleared c).
Proof.
  intro H. unfold process, cleared.
  destruct (client_state s); [reflexivity | congruence | reflexivity].
Qed.

(** What a cycle holds is what the state machine wrote and then Clock
    ticks of the scheduler. *)
Lemma process_events (fuel : nat) (o : options) (s : app_state) (c : cycle)
  (s' : app_state) (pb : port_buffer) :
  client_state s = Run ->
  process fuel o s c = Some (s', pb) ->
  exists evs,
    pb_events pb = pb_events (snd (before_scheduler o s c)) ++ evs /\
    Forall (fun e => ev_data e = [MIDI_RT_CLOCK]) evs.
Proof.
  intros Hrun H. rewrite process_running in H by exact Hrun.
  apply send_clock_ticks_scan in H.
  destruct H as (_ & _ & _ & _ & n & evs & _ & Hev & Hclk & _).
  exists evs. split; assumption.
Qed.

(** The state machine writes a Clock tick only on an edge into Rolling,
    and only when clock messages are not suppressed. *)
Lemma before_scheduler_no_clock (o : options) (s : app_state) (c : cycle) :
  xstate_eqb (cy_xstate c) JackTransportRolling
  && negb (xstate_eqb (cy_xstate c) (m_xstate s))
  && negb (flag_set (msg_filter o) MSG_NO_CLOCK) = false ->
  count_msg MIDI_RT_CLOCK (pb_events (snd (before_scheduler o s c))) = 0%nat.
Proof.
  unfold before_scheduler, send_transport_messages, send_position_updates.
  cbn [m_xstate set_last_xpos].
  destruct (xstate_eqb (cy_xstate c) (m_xstate s)) eqn:E; simpl.
  - intros _. rewrite andb_true_r.
    destruct (xstate_eqb (cy_xstate c) JackTransportStopped); [ | reflexivity].
    destruct (_ >? _); [ | reflexivity].
    rewrite count_msg_send_pos. reflexivity.
  - rewrite andb_false_r, andb_true_r. simpl.
    unfold send_start_stop_continue. cbn [m_xstate set_last_xpos].
    destruct (cy_xstate c) eqn:Ec; cbn [xstate_eqb andb];
      destruct (flag_set (msg_filter o) MSG_NO_CLOCK); cbn [negb];
      try discriminate; intros _;
      destruct (flag_set (msg_filter o) MSG_NO_TRANSPORT); cbn [negb];
      try destruct (xstate_eqb (m_xstate s) JackTransportStarting);
      try destruct (frame (cy_xpos c) =? 0);
      repeat (first [ rewrite count_msg_send_pos
                    | rewrite count_msg_send_rt ]);
      simpl; rewrite ?andb_false_r; reflexivity.
Qed.

(** Without the continuous clock, a cycle that does not see Rolling holds
    no Clock tick. *)
Lemma process_no_clock_unless_rolling (fuel : nat) (o : options)
  (s : app_state) (c : cycle) (s' : app_state) (pb : port_buffer) :
  flag_set (msg_filter o) MSG_NO_CONT_CLOCK = true ->
  cy_xstate c <> JackTransportRolling ->
  process fuel o s c = Some (s', pb) ->
  count_msg MIDI_RT_CLOCK (pb_events pb) = 0%nat.
Proof.
  intros Hflag Hstate H.
  destruct (client_state s) eqn:Hc.
  1,3: rewrite process_not_running in H by congruence;
       injection H as _ <-; reflexivity.
  rewrite process_running in H by exact Hc.
  unfold send_clock_ticks in H. rewrite Hflag in H.
  apply xstate_eqb_neq in Hstate. rewrite Hstate in H. simpl in H.
  injection H as _ <-.
  apply before_scheduler_no_clock. rewrite Hstate. reflexivity.
Qed.

(** With clock messages suppressed the callback returns before the loop
    of the scheduler. *)
Lemma process_clock_suppressed (fuel : nat) (o : options) (s : app_state)
  (c : cycle) :
  flag_set (msg_filter o) MSG_NO_CLOCK = true ->
  exists s' pb,
    process fuel o s c = Some (s', pb) /\
    count_msg MIDI_RT_CLOCK (pb_events pb) = 0%nat.
Proof.
  intro Hflag.
  destruct (client_state s) eqn:Hc.
  1,3: rewrite process_not_running by congruence;
       eexists; eexists; split; reflexivity.
  rewrite process_running by exact Hc.
  unfold send_clock_ticks. rewrite Hflag.
  destruct (_ && _); eexists; eexists; (split; [reflexivity | ]);
    apply before_scheduler_no_clock; rewrite Hflag, andb_false_r; reflexivity.
Qed.

Lemma decode_switches_returns (opts : list getopt_result) :
  forall o o' : options,
    decode_switches opts o = inr o' -> forallb is_setting opts = true.
Proof.
  induction opts as [ | r opts IH]; intros o o' H; [reflexivity | ].
  cbn [decode_switches] in H. cbn [forallb]. unfold is_setting at 1.
  destruct (opt_c r =? "b")%char; [apply (IH _ _ H) | ].
  destruct (opt_c r =? "B")%char; [apply (IH _ _ H) | ].
  destruct (opt_c r =? "P")%char; [apply (IH _ _ H) | ].
  destruct (opt_c r =? "T")%char; [apply (IH _ _ H) | ].
  destruct (opt_c r =? "V")%char; [discriminate H | ].
  destruct (opt_c r =? "h")%char; discriminate H.
Qed.

Lemma decode_switches_no_cont_clock (opts : list getopt_result)
  (o : options) :
  decode_switches opts default_options = inr o ->
  flag_set (msg_filter o) MSG_NO_CONT_CLOCK = true.
Proof.
  intro H. pose proof (decode_switches_returns _ _ _ H) as Hall.
  rewrite (decode_switches_settings _ _ Hall) in H. injection H as <-.
  cbn [msg_filter default_options].
  destruct (given "P" opts), (given "T" opts); reflexivity.
Qed.

End Never.

(** X4. Clock ticks only while rolling. Whatever the command line the program
    was started with, and whatever the state it is in: along any sequence of
    cycles (with a tempo that lets every cycle end), the buffer of a cycle that
    does not see the transport Rolling holds no Clock tick. *)
Theorem clock_only_while_rolling (opts : list getopt_result) (o : options)
  (s : app_state) (cycles : list cycle) :
  decode_switches opts default_options = inr o ->
  Forall (fun c => tempo_positive o (cy_xpos c)) cycles ->
  exists fuel0, forall fuel, (fuel0 <= fuel)%nat ->
    exists s' bufs,
      run fuel o s cycles = Some (s', bufs) /\
      Forall2 (fun c pb =>
                 cy_xstate c <> JackTransportRolling ->
                 count_msg MIDI_RT_CLOCK (pb_events pb) = 0%nat)
        cycles bufs.
Proof.
  intros Hopts Htempo.
  pose proof (decode_switches_no_cont_clock _ _ Hopts) as Hflag.
  apply run_total; [exact Htempo | ].
  intros fuel s' bufs H.
  apply (run_Forall2 _ fuel o) with (s := s) (s' := s'); [ | exact H].
  intros s0 c s1 pb Hp Hstate.
  apply (process_no_clock_unless_rolling _ _ _ _ _ _ Hflag Hstate Hp).
Qed.

(** Started with [-T]: Stopped, Starting, then Rolling at 120 BPM. *)
Lemma clock_only_while_rolling_witness :
  exists fuel0, forall fuel, (fuel0 <= fuel)%nat ->
    exists s' bufs,
      run fuel
        {| user_bpm := 0; force_bpm := 0;
           msg_filter := Z.lor MSG_NO_CONT_CLOCK MSG_NO_TRANSPORT |}
        initial_state
        [scenario_cycle JackTransportStopped 0;
         scenario_cycle JackTransportStarting 0;
         scenario_cycle JackTransportRolling 0]
      = Some (s', bufs) /\
      Forall2 (fun c pb =>
                 cy_xstate c <> JackTransportRolling ->
                 count_msg MIDI_RT_CLOCK (pb_events pb) = 0%nat)
        [scenario_cycle JackTransportStopped 0;
         scenario_cycle JackTransportStarting 0;
         scenario_cycle JackTransportRolling 0] bufs.
Proof.
  apply (clock_only_while_rolling [mk_getopt "T" 0]).
  - reflexivity.
  - repeat constructor.
Defined.

(** X5. Clock messages suppressed. With [MSG_NO_CLOCK] set in the filter the
    callback returns in every cycle, whatever the tempo, and no buffer holds a
    Clock tick. *)
Theorem clock_suppressed (o : options) (s : app_state) (cycles : list cycle)
  (fuel : nat) :
  flag_set (msg_filter o) MSG_NO_CLOCK = true ->
  exists s' bufs,
    run fuel o s cycles = Some (s', bufs) /\
    length bufs = length cycles /\
    Forall (fun pb => count_msg MIDI_RT_CLOCK (pb_events pb) = 0%nat) bufs.
Proof.
  intro Hflag. revert s.
  induction cycles as [ | c cycles IH]; intro s.
  - exists s, []. repeat split. constructor.
  - destruct (process_clock_suppressed fuel o s c Hflag) as (s1 & pb & E & Hpb).
    destruct (IH s1) as (s2 & bufs & E2 & Hlen & Hall).
    exists s2, (pb :: bufs). simpl. rewrite E, E2.
    repeat split; [congruence | constructor; assumption].
Qed.

(** Rolling from frame 0 with the clock suppressed, and no fuel at all. *)
Lemma clock_suppressed_witness :
  exists s' bufs,
    run 0 {| user_bpm := 0; force_bpm := 0; msg_filter := MSG_NO_CLOCK |}
      initial_state [scenario_cycle JackTransportRolling 0]
    = Some (s', bufs) /\
    length bufs = 1%nat /\
    Forall (fun pb => count_msg MIDI_RT_CLOCK (pb_events pb) = 0%nat) bufs.
Proof.
  apply (clock_suppressed
           {| user_bpm := 0; force_bpm := 0; msg_filter := MSG_NO_CLOCK |}
           initial_state [scenario_cycle JackTransportRolling 0] 0).
  reflexivity.
Defined.

Section Suppressed.

Lemma send_pos_message_suppressed (o : options) (pb : port_buffer)
  (xpos : jack_position_t) :
  flag_set (msg_filter o) MSG_NO_POSITION = true ->
  send_pos_message o pb xpos = pb.
Proof. intro H. unfold send_pos_message. rewrite H. reflexivity. Qed.

Lemma process_transport_suppressed (fuel : nat) (o : options)
  (s : app_state) (c : cycle) (s' : app_state) (pb : port_buffer) :
  flag_set (msg_filter o) MSG_NO_TRANSPORT = true ->
  process fuel o s c = Some (s', pb) ->
  count_msg MIDI_RT_STOP (pb_events pb) = 0%nat /\
  count_start_continue (pb_events pb) = 0%nat.
Proof.
  intros Hflag H.
  destruct (client_state s) eqn:Hc.
  1,3: rewrite process_not_running in H by congruence;
       injection H as _ <-; split; reflexivity.
  destruct (process_counts _ _ _ _ _ _ Hc H) as (_ & -> & ->).
  destruct (before_scheduler_counts o s c) as (-> & ->).
  rewrite Hflag. cbn [negb andb]. rewrite !andb_false_r. split; reflexivity.
Qed.

Lemma process_position_suppressed (fuel : nat) (o : options)
  (s : app_state) (c : cycle) (s' : app_state) (pb : port_buffer) :
  flag_set (msg_filter o) MSG_NO_POSITION = true ->
  process fuel o s c = Some (s', pb) ->
  Forall (fun e => is_song_position e = false) (pb_events pb).
Proof.
  intros Hflag H.
  destruct (client_state s) eqn:Hc.
  1,3: rewrite process_not_running in H by congruence;
       injection H as _ <-; constructor.
  destruct (process_events _ _ _ _ _ _ Hc H) as (evs & -> & Hclk).
  apply Forall_app. split.
  - apply before_scheduler_Forall.
    + intros _ m Hm. simpl in Hm.
      destruct Hm as [<- | [<- | [<- | [<- | []]]]]; reflexivity.
    + intros pb0 H0. rewrite send_pos_message_suppressed by exact Hflag.
      exact H0.
  - eapply Forall_impl; [ | exact Hclk].
    intros e He. unfold is_song_position. rewrite He. reflexivity.
Qed.

End Suppressed.

(** X6. Transport messages suppressed ([-T]). Along any sequence of cycles
    (with a tempo that lets every cycle end), whatever the transport does, no
    buffer holds a Stop, a Start or a Continue. *)
Theorem transport_suppressed (o : options) (s : app_state)
  (cycles : list cycle) :
  flag_set (msg_filter o) MSG_NO_TRANSPORT = true ->
  Forall (fun c => tempo_positive o (cy_xpos c)) cycles ->
  exists fuel0, forall fuel, (fuel0 <= fuel)%nat ->
    exists s' bufs,
      run fuel o s cycles = Some (s', bufs) /\
      Forall2 (fun _ pb =>
                 count_msg MIDI_RT_STOP (pb_events pb) = 0%nat /\
                 count_start_continue (pb_events pb) = 0%nat)
        cycles bufs.
Proof.
  intros Hflag Htempo. apply run_total; [exact Htempo | ].
  intros fuel s' bufs H.
  apply (run_Forall2 _ fuel o) with (s := s) (s' := s'); [ | exact H].
  intros s0 c s1 pb Hp.
  apply (process_transport_suppressed _ _ _ _ _ _ Hflag Hp).
Qed.

(** Stopped, then Rolling from frame 0, then Stopped again, with [-T]. *)
Lemma transport_suppressed_witness :
  exists fuel0, forall fuel, (fuel0 <= fuel)%nat ->
    exists s' bufs,
      run fuel
        {| user_bpm := 0; force_bpm := 0;
           msg_filter := Z.lor MSG_NO_CONT_CLOCK MSG_NO_TRANSPORT |}
        initial_state
        [scenario_cycle JackTransportStopped 0;
         scenario_cycle JackTransportRolling 0;
         scenario_cycle JackTransportStopped 512]
      = Some (s', bufs) /\
      Forall2 (fun _ pb =>
                 count_msg MIDI_RT_STOP (pb_events pb) = 0%nat /\
                 count_start_continue (pb_events pb) = 0%nat)
        [scenario_cycle JackTransportStopped 0;
         scenario_cycle JackTransportRolling 0;
         scenario_cycle JackTransportStopped 512] bufs.
Proof.
  apply transport_suppressed.
  - reflexivity.
  - repeat constructor.
Defined.

(** X7. Position messages suppressed ([-P]). Along any sequence of cycles (with
    a tempo that lets every cycle end), wherever the transport is located and
    stopped, no buffer holds a Song Position Pointer. *)
Theorem position_suppressed (o : options) (s : app_state)
  (cycles : list cycle) :
  flag_set (msg_filter o) MSG_NO_POSITION = true ->
  Forall (fun c => tempo_positive o (cy_xpos c)) cycles ->
  exists fuel0, forall fuel, (fuel0 <= fuel)%nat ->
    exists s' bufs,
      run fuel o s cycles = Some (s', bufs) /\
      Forall2 (fun _ pb =>
                 Forall (fun e => is_song_position e = false) (pb_events pb))
        cycles bufs.
Proof.
  intros Hflag Htempo. apply run_total; [exact Htempo | ].
  intros fuel s' bufs H.
  apply (run_Forall2 _ fuel o) with (s := s) (s' := s'); [ | exact H].
  intros s0 c s1 pb Hp.
  apply (process_position_suppressed _ _ _ _ _ _ Hflag Hp).
Qed.

(** Rolling, then stopped at bar 3, with [-P]. *)
Lemma position_suppressed_witness :
  exists fuel0, forall fuel, (fuel0 <= fuel)%nat ->
    exists s' bufs,
      run fuel
        {| user_bpm := 0; force_bpm := 0;
           msg_filter := Z.lor MSG_NO_CONT_CLOCK MSG_NO_POSITION |}
        (seen JackTransportRolling)
        [mk_cycle 512 JackTransportStopped (bbt_at 3 1 0) 16]
      = Some (s', bufs) /\
      Forall2 (fun _ pb =>
                 Forall (fun e => is_song_position e = false) (pb_events pb))
        [mk_cycle 512 JackTransportStopped (bbt_at 3 1 0) 16] bufs.
Proof.
  apply position_suppressed.
  - reflexivity.
  - repeat constructor.
Defined.

(** X8. Outside [Run]. Before [main] has set [client_state] to [Run], and after
    [catchsig] or [jack_shutdown] has set it to [Exit], the callback returns in
    every cycle with a cleared, empty buffer and leaves the state as it is; in
    particular it does not take note of the transport state, so that a state
    edge seen meanwhile is still to come. *)
Theorem silent_outside_run (o : options) (s : app_state)
  (cycles : list cycle) (fuel : nat) :
  run fuel o (catchsig s) cycles = Some (catchsig s, map cleared cycles) /\
  run fuel o (jack_shutdown s) cycles
  = Some (jack_shutdown s, map cleared cycles) /\
  run fuel o globals cycles = Some (globals, map cleared cycles) /\
  Forall (fun pb => pb_events pb = []) (map cleared cycles).
Proof.
  assert (G : forall s0, client_state s0 <> Run ->
                         run fuel o s0 cycles = Some (s0, map cleared cycles)).
  { intros s0 H0. induction cycles as [ | c cycles IH]; [reflexivity | ].
    simpl. rewrite process_not_running by exact H0. rewrite IH. reflexivity. }
  repeat split; try (apply G; discriminate).
  apply Forall_map. apply Forall_forall. reflexivity.
Qed.

(** ** The buffers handed back to JACK *)

Section Buffers.

Lemma offsets_ordered_snoc (n : Z) (evs : list midi_event) (e : midi_event) :
  forall low : Z,
    offsets_ordered low n evs ->
    match rev evs with [] => low | e' :: _ => ev_time e' end <= ev_time e < n ->
    offsets_ordered low n (evs ++ [e]).
Proof.
  induction evs as [ | a evs IH]; intros low Hord Hlast.
  - simpl in *. split; [exact Hlast | exact I].
  - destruct Hord as [Ha Hord]. cbn [app offsets_ordered].
    split; [exact Ha | ].
    apply IH; [exact Hord | ].
    cbn [rev] in Hlast. destruct (rev evs); exact Hlast.
Qed.

(** Every write of the program goes through a successful
    [jack_midi_event_reserve]: a property of buffers that such writes keep
    holds of what the callback returns. *)
Variable inv : port_buffer -> Prop.

Hypothesis inv_rt :
  forall pb time m,
    In m [MIDI_RT_STOP; MIDI_RT_START; MIDI_RT_CONTINUE; MIDI_RT_CLOCK] ->
    inv pb -> jack_midi_event_reserve pb time 1 = true ->
    inv (event_written pb time [m]).

Hypothesis inv_pos :
  forall pb n,
    inv pb -> jack_midi_event_reserve pb 0 3 = true ->
    inv (event_written pb 0
           [0xf2; Z.land n 0x7f; Z.land (Z.shiftr n 7) 0x7f]).

Lemma send_rt_message_inv (pb : port_buffer) (time m : Z) :
  In m [MIDI_RT_STOP; MIDI_RT_START; MIDI_RT_CONTINUE; MIDI_RT_CLOCK] ->
  inv pb -> inv (send_rt_message pb time m).
Proof.
  intros Hm H. unfold send_rt_message.
  destruct (jack_midi_event_reserve pb time 1) eqn:E; [ | exact H].
  apply inv_rt; assumption.
Qed.

Lemma send_pos_message_inv (o : options) (pb : port_buffer)
  (xpos : jack_position_t) :
  inv pb -> inv (send_pos_message o pb xpos).
Proof.
  intro H. unfold send_pos_message.
  destruct (flag_set (msg_filter o) MSG_NO_POSITION); [exact H | ].
  destruct (negb (flag_set (valid xpos) JackPositionBBT)); [exact H | ].
  destruct (_ || _); [exact H | ].
  destruct (jack_midi_event_reserve pb 0 3) eqn:E; [ | exact H].
  apply inv_pos; assumption.
Qed.

Lemma before_scheduler_inv (o : options) (s : app_state) (c : cycle) :
  inv (cleared c) -> inv (snd (before_scheduler o s c)).
Proof.
  intro H0. unfold cleared in H0.
  unfold before_scheduler, send_transport_messages, send_position_updates.
  cbn [m_xstate set_last_xpos].
  destruct (xstate_eqb (cy_xstate c) (m_xstate s)); simpl.
  - rewrite andb_true_r.
    destruct (xstate_eqb (cy_xstate c) JackTransportStopped); [ | exact H0].
    destruct (_ >? _); [ | exact H0].
    apply send_pos_message_inv. exact H0.
  - rewrite andb_false_r.
    assert (Hssc : inv (send_start_stop_continue o
               (set_last_xpos s (remember_pos (last_xpos s) (cy_xpos c))) c
               (jack_midi_clear_buffer (cy_nframes c) (cy_room c)))).
    { unfold send_start_stop_continue.
      destruct (cy_xstate c); try exact H0.
      - apply send_pos_message_inv. destruct (negb _); [ | exact H0].
        apply send_rt_message_inv; [simpl; auto | exact H0].
      - destruct (xstate_eqb _ _); [exact H0 | ].
        destruct (_ =? _); (destruct (negb _); [ | exact H0]);
          (apply send_rt_message_inv; [simpl; auto | exact H0]).
      - destruct (xstate_eqb _ _); [exact H0 | ].
        destruct (_ =? _); (destruct (negb _); [ | exact H0]);
          (apply send_rt_message_inv; [simpl; auto | exact H0]). }
    destruct (xstate_eqb (cy_xstate c) JackTransportRolling); [ | exact Hssc].
    destruct (negb _); [ | exact Hssc].
    apply send_rt_message_inv; [simpl; auto | exact Hssc].
Qed.

Lemma tick_loop_inv (fuel : nat) (d : Q) (frame bbt_offset nframes : Z) :
  forall (last : Q) (pb : port_buffer) (last' : Q) (pb' : port_buffer),
    inv pb ->
    tick_loop fuel d frame bbt_offset nframes last pb = Some (last', pb') ->
    inv pb'.
Proof.
  induction fuel as [ | fuel IH]; intros last pb last' pb' Hpb H.
  - discriminate.
  - destruct (Z_lt_le_dec (llrint (last + d) - frame - bbt_offset) nframes)
      as [Hlt | Hge].
    + rewrite tick_loop_continue in H by assumption.
      apply IH in H; [exact H | ].
      destruct (_ >=? 0); [ | exact Hpb].
      apply send_rt_message_inv; [simpl; auto | exact Hpb].
    + rewrite tick_loop_break in H by assumption.
      injection H as _ <-. exact Hpb.
Qed.

Lemma process_inv (fuel : nat) (o : options) (s : app_state) (c : cycle)
  (s' : app_state) (pb : port_buffer) :
  inv (cleared c) -> process fuel o s c = Some (s', pb) -> inv pb.
Proof.
  intros H0 H.
  destruct (client_state s) eqn:Hc.
  1,3: rewrite process_not_running in H by congruence;
       injection H as _ <-; exact H0.
  rewrite process_running in H by exact Hc.
  pose proof (before_scheduler_inv o s c H0) as H1.
  unfold send_clock_ticks in H.
  destruct (_ && _); [injection H as _ <-; exact H1 | ].
  destruct (flag_set _ _); [injection H as _ <-; exact H1 | ].
  destruct (calc_samples_per_beat _ _) as [[spb off] | ];
    [ | injection H as _ <-; exact H1].
  destruct (tick_loop _ _ _ _ _ _ _) as [[t pb1] | ] eqn:Hloop;
    [ | discriminate].
  injection H as _ <-.
  apply (tick_loop_inv _ _ _ _ _ _ _ _ _ H1 Hloop).
Qed.

End Buffers.

Section WellFormed.


Lemma reserve_true (pb : port_buffer) (time size : Z) :
  jack_midi_event_reserve pb time size = true ->
  0 <= time < pb_nframes pb /\ last_event_time pb <= time /\
  (0 < pb_room pb)%nat.
Proof.
  unfold jack_midi_event_reserve. intro H.
  repeat (apply andb_true_iff in H; destruct H as [H ?]).
  apply Z.leb_le in H. apply Z.ltb_lt in H3. apply Z.leb_le in H2.
  destruct (pb_room pb); [discriminate | ]. lia.
Qed.

Lemma well_formed_written (c : cycle) (pb : port_buffer) (time : Z)
  (data : list Z) :
  well_formed c pb ->
  jack_midi_event_reserve pb time (Z.of_nat (length data)) = true ->
  midi_message (mk_event time data) ->
  well_formed c (event_written pb time data).
Proof.
  intros (Hnf & Hroom & Hord & Hmsg) Hres He.
  apply reserve_true in Hres. destruct Hres as (Ht & Hlast & Hr).
  unfold well_formed. cbn [pb_nframes pb_room pb_events event_written].
  split; [exact Hnf | split; [ | split]].
  - rewrite length_app. simpl. lia.
  - apply offsets_ordered_snoc; [exact Hord | ].
    unfold last_event_time in Hlast. simpl. rewrite <- Hnf. lia.
  - apply Forall_app. split; [exact Hmsg | constructor; [exact He | constructor]].
Qed.

Lemma process_well_formed (fuel : nat) (o : options) (s : app_state)
  (c : cycle) (s' : app_state) (pb : port_buffer) :
  process fuel o s c = Some (s', pb) -> well_formed c pb.
Proof.
  apply (process_inv (well_formed c)).
  - intros pb0 time m Hm H0 Hres.
    apply well_formed_written; [exact H0 | exact Hres | ].
    left. simpl in Hm |- *.
    destruct Hm as [<- | [<- | [<- | [<- | []]]]]; auto.
  - intros pb0 n H0 Hres.
    apply well_formed_written; [exact H0 | exact Hres | ].
    right. destruct (song_position_bytes n) as (Hl & Hm & _).
    exists (Z.land n 0x7f), (Z.land (Z.shiftr n 7) 0x7f).
    split; [reflexivity | split; assumption].
  - unfold well_formed, cleared. simpl.
    repeat split; [lia | constructor].
Qed.

End WellFormed.

(** X9. Well-formed output. Along any sequence of cycles (with a tempo that
    lets every cycle end), whatever the options and whatever the transport
    does, the buffer of every cycle is one JACK accepts: it holds no more
    events than it had room for, and every event is a Clock, Start, Continue or
    Stop byte or a three-byte Song Position Pointer with 7-bit data bytes, at
    an offset within the cycle and not before the event written ahead of it. *)
Theorem output_well_formed (o : options) (s : app_state)
  (cycles : list cycle) :
  Forall (fun c => tempo_positive o (cy_xpos c)) cycles ->
  exists fuel0, forall fuel, (fuel0 <= fuel)%nat ->
    exists s' bufs,
      run fuel o s cycles = Some (s', bufs) /\
      Forall2 well_formed cycles bufs.
Proof.
  intro Htempo. apply run_total; [exact Htempo | ].
  intros fuel s' bufs H.
  apply (run_Forall2 _ fuel o) with (s := s) (s' := s'); [ | exact H].
  intros s0 c s1 pb Hp. apply (process_well_formed _ _ _ _ _ _ Hp).
Qed.

(** The stopped cycle and the ten rolling cycles of the scenario. *)
Lemma output_well_formed_witness :
  exists fuel0, forall fuel, (fuel0 <= fuel)%nat ->
    exists s' bufs,
      run fuel default_options initial_state scenario_10_cycles
      = Some (s', bufs) /\
      Forall2 well_formed scenario_10_cycles bufs.
Proof.
  apply output_well_formed. repeat constructor.
Defined.

(** ** Stopping, and moving while stopped *)

Section Stopped.


(** Without the continuous clock, a cycle that does not see Rolling ends
    after the state machine. *)
Lemma process_not_rolling (fuel : nat) (o : options) (s : app_state)
  (c : cycle) :
  client_state s = Run ->
  flag_set (msg_filter o) MSG_NO_CONT_CLOCK = true ->
  cy_xstate c <> JackTransportRolling ->
  process fuel o s c = Some (before_scheduler o s c).
Proof.
  intros Hrun Hflag Hstate. rewrite process_running by exact Hrun.
  unfold send_clock_ticks. rewrite Hflag.
  apply xstate_eqb_neq in Hstate. rewrite Hstate. simpl.
  destruct (before_scheduler o s c). reflexivity.
Qed.




End Stopped.





(** X12. Looping and NetStarting. The client running, the clock not continuing:
    a cycle that sees the transport Looping or NetStarting returns whatever the
    fuel and sends nothing at all, neither on the edge into that state (no
    Stop, though the clock ends) nor while it lasts; the state is taken note of
    all the same. *)
Theorem looping_is_silent (o : options) (s : app_state) (c : cycle)
  (fuel : nat) :
  client_state s = Run ->
  flag_set (msg_filter o) MSG_NO_CONT_CLOCK = true ->
  cy_xstate c = JackTransportLooping \/
  cy_xstate c = JackTransportNetStarting ->
  exists s' pb,
    process fuel o s c = Some (s', pb) /\
    pb_events pb = [] /\
    m_xstate s' = cy_xstate c.
Proof.
  intros Hrun Hflag Hc.
  rewrite process_not_rolling
    by (try assumption; destruct Hc as [-> | ->]; discriminate).
  exists (fst (before_scheduler o s c)), (snd (before_scheduler o s c)).
  split; [rewrite <- surjective_pairing; reflexivity | ].
  destruct (before_scheduler_state o s c) as (Hx & _).
  split; [ | exact Hx].
  unfold before_scheduler, send_transport_messages, send_position_updates,
    send_start_stop_continue.
  cbn [m_xstate set_last_xpos].
  destruct Hc as [-> | ->]; cbn [xstate_eqb andb];
    destruct (m_xstate s); reflexivity.
Qed.

(** Rolling, then Looping. *)
Lemma looping_is_silent_witness :
  exists s' pb,
    process 0 default_options (seen JackTransportRolling)
      (scenario_cycle JackTransportLooping 512)
    = Some (s', pb) /\
    pb_events pb = [] /\
    m_xstate s' = JackTransportLooping.
Proof.
  apply (looping_is_silent default_options (seen JackTransportRolling)
           (scenario_cycle JackTransportLooping 512) 0).
  - reflexivity.
  - reflexivity.
  - left. reflexivity.
Defined.

Section NotStopped.

(** In a cycle that does not see the transport stopped the state machine
    sends no position. *)
Lemma before_scheduler_not_stopped (o : options) (s : app_state) (c : cycle) :
  cy_xstate c <> JackTransportStopped ->
  Forall (fun e => is_song_position e = false)
    (pb_events (snd (before_scheduler o s c))).
Proof.
  intro Hc.
  unfold before_scheduler, send_transport_messages, send_position_updates,
    send_start_stop_continue.
  cbn [m_xstate set_last_xpos].
  destruct (cy_xstate c); [congruence | | | | ];
    destruct (m_xstate s); cbn [xstate_eqb andb negb snd];
    try destruct (frame (cy_xpos c) =? 0);
    destruct (flag_set (msg_filter o) MSG_NO_TRANSPORT);
    destruct (flag_set (msg_filter o) MSG_NO_CLOCK); cbn [negb];
    repeat (apply Forall_send_rt; [ | reflexivity]); constructor.
Qed.

Lemma process_position_only_stopped (fuel : nat) (o : options)
  (s : app_state) (c : cycle) (s' : app_state) (pb : port_buffer) :
  cy_xstate c <> JackTransportStopped ->
  process fuel o s c = Some (s', pb) ->
  Forall (fun e => is_song_position e = false) (pb_events pb).
Proof.
  intros Hc H.
  destruct (client_state s) eqn:Hcs.
  1,3: rewrite process_not_running in H by congruence;
       injection H as _ <-; constructor.
  destruct (process_events _ _ _ _ _ _ Hcs H) as (evs & -> & Hclk).
  apply Forall_app. split.
  - apply before_scheduler_not_stopped. exact Hc.
  - eapply Forall_impl; [ | exact Hclk].
    intros e He. unfold is_song_position. rewrite He. reflexivity.
Qed.

End NotStopped.

(** X13. Positions only while stopped. Along any sequence of cycles (with a
    tempo that lets every cycle end), whatever the options, the buffer of a
    cycle that does not see the transport stopped holds no Song Position
    Pointer: starting or continuing to roll from a new place is not announced
    with its position. *)
Theorem position_only_while_stopped (o : options) (s : app_state)
  (cycles : list cycle) :
  Forall (fun c => tempo_positive o (cy_xpos c)) cycles ->
  exists fuel0, forall fuel, (fuel0 <= fuel)%nat ->
    exists s' bufs,
      run fuel o s cycles = Some (s', bufs) /\
      Forall2 (fun c pb =>
                 cy_xstate c <> JackTransportStopped ->
                 Forall (fun e => is_song_position e = false) (pb_events pb))
        cycles bufs.
Proof.
  intro Htempo. apply run_total; [exact Htempo | ].
  intros fuel s' bufs H.
  apply (run_Forall2 _ fuel o) with (s := s) (s' := s'); [ | exact H].
  intros s0 c s1 pb Hp Hc.
  apply (process_position_only_stopped _ _ _ _ _ _ Hc Hp).
Qed.

(** Stopped at bar 1, then rolling from bar 3. *)
Lemma position_only_while_stopped_witness :
  exists fuel0, forall fuel, (fuel0 <= fuel)%nat ->
    exists s' bufs,
      run fuel default_options initial_state
        [mk_cycle 512 JackTransportStopped (bbt_at 1 1 0) 16;
         mk_cycle 512 JackTransportRolling (bbt_at 3 1 0) 16]
      = Some (s', bufs) /\
      Forall2 (fun c pb =>
                 cy_xstate c <> JackTransportStopped ->
                 Forall (fun e => is_song_position e = false) (pb_events pb))
        [mk_cycle 512 JackTransportStopped (bbt_at 1 1 0) 16;
         mk_cycle 512 JackTransportRolling (bbt_at 3 1 0) 16] bufs.
Proof.
  apply position_only_while_stopped. repeat constructor.
Defined.

(** ** A full buffer *)

Section FullBuffer.

Lemma tick_loop_fst (fuel : nat) (d : Q) (frame bbt_offset nframes : Z) :
  forall (last : Q) (pb pb' : port_buffer),
    option_map fst (tick_loop fuel d frame bbt_offset nframes last pb)
    = option_map fst (tick_loop fuel d frame bbt_offset nframes last pb').
Proof.
  induction fuel as [ | fuel IH]; intros last pb pb'; [reflexivity | ].
  cbn [tick_loop].
  destruct (llrint (last + d) - frame - bbt_offset >=? nframes);
    [reflexivity | apply IH].
Qed.

Lemma before_scheduler_fst (o : options) (s : app_state) (c : cycle)
  (room : nat) :
  fst (before_scheduler o s (with_room room c)) = fst (before_scheduler o s c).
Proof.
  unfold before_scheduler, send_transport_messages.
  cbn [with_room cy_xstate cy_xpos cy_nframes m_xstate set_last_xpos].
  destruct (negb _); reflexivity.
Qed.

Lemma send_clock_ticks_fst (fuel : nat) (o : options) (s : app_state)
  (c : cycle) (room : nat) (pb pb' : port_buffer) :
  option_map fst (send_clock_ticks fuel o s (with_room room c) pb)
  = option_map fst (send_clock_ticks fuel o s c pb').
Proof.
  unfold send_clock_ticks.
  cbn [with_room cy_xstate cy_xpos cy_nframes].
  destruct (_ && _); [reflexivity | ].
  destruct (flag_set _ _); [reflexivity | ].
  destruct (calc_samples_per_beat _ _) as [[spb off] | ]; [ | reflexivity].
  pose proof (tick_loop_fst fuel (clock_tick_interval spb) (frame (cy_xpos c))
                off (cy_nframes c) (mclk_last_tick s) pb pb') as H.
  destruct (tick_loop _ _ _ _ _ _ pb) as [[t1 pb1] | ];
    destruct (tick_loop _ _ _ _ _ _ pb') as [[t2 pb2] | ];
    simpl in H |- *; congruence.
Qed.

Lemma process_fst (fuel : nat) (o : options) (s : app_state) (c : cycle)
  (room : nat) :
  option_map fst (process fuel o s (with_room room c))
  = option_map fst (process fuel o s c).
Proof.
  destruct (client_state s) eqn:Hc.
  1,3: rewrite !process_not_running by congruence; reflexivity.
  rewrite !process_running by exact Hc.
  rewrite before_scheduler_fst. apply send_clock_ticks_fst.
Qed.

Lemma run_fst (fuel : nat) (o : options) (room : nat) (cycles : list cycle) :
  forall s : app_state,
    option_map fst (run fuel o s (map (with_room room) cycles))
    = option_map fst (run fuel o s cycles).
Proof.
  induction cycles as [ | c cycles IH]; intro s; [reflexivity | ].
  cbn [map run].
  pose proof (process_fst fuel o s c room) as Hp.
  destruct (process fuel o s (with_room room c)) as [[s1 pb1] | ];
    destruct (process fuel o s c) as [[s2 pb2] | ];
    simpl in Hp; try discriminate; [ | reflexivity].
  injection Hp as ->. specialize (IH s2).
  destruct (run fuel o s2 (map (with_room room) cycles)) as [[s3 b3] | ];
    destruct (run fuel o s2 cycles) as [[s4 b4] | ];
    simpl in IH |- *; congruence.
Qed.

End FullBuffer.

(** X14. A full buffer loses events, not time. The state the callback leaves
    (transport state seen, running position of the scheduler, position
    remembered), and whether it returns, do not depend on the room of the
    buffers: along any sequence of cycles they are what they are with buffers
    that take no event at all. A tick that finds no room is dropped and the
    scheduler goes on from it, so an overflow in one cycle does not move the
    ticks of the next. *)
Theorem full_buffer_keeps_state (fuel : nat) (o : options) (s : app_state)
  (cycles : list cycle) :
  option_map fst (run fuel o s cycles)
  = option_map fst (run fuel o s (map (with_room 0) cycles)) /\
  (forall s' bufs,
      run fuel o s (map (with_room 0) cycles) = Some (s', bufs) ->
      Forall (fun pb => pb_events pb = []) bufs).
Proof.
  split; [symmetry; apply run_fst | ].
  intros s' bufs H.
  assert (Hwf : Forall2 well_formed (map (with_room 0) cycles) bufs).
  { apply (run_Forall2 _ fuel o) with (s := s) (s' := s'); [ | exact H].
    intros s0 c s1 pb Hp. apply (process_well_formed _ _ _ _ _ _ Hp). }
  clear H. remember (map (with_room 0) cycles) as cs eqn:E.
  revert cycles E.
  induction Hwf as [ | c pb cs bufs Hc _ IH]; intros cycles E; constructor.
  - destruct cycles as [ | c0 cycles]; [discriminate | ].
    injection E as -> _. destruct Hc as (_ & Hroom & _).
    cbn [with_room cy_room] in Hroom.
    destruct (pb_events pb); [reflexivity | simpl in Hroom; lia].
  - destruct cycles as [ | c0 cycles]; [discriminate | ].
    injection E as _ ->. apply (IH cycles). reflexivity.
Qed.

(** ** The scheduler, from any running position *)

Section GridTicks.

Variables (last0 d : Q).
Hypothesis d_pos : (0 < d)%Q.

Let p (j : nat) : Z := grid_position last0 d j.



Variables (frame bbt_offset nframes : Z).




(** With an interval that is not positive the loop does not end, once the
    next tick lies before the end of the cycle. *)
Lemma tick_loop_never_ends (d' : Q) (fuel : nat) :
  (d' <= 0)%Q ->
  forall (last : Q) (pb : port_buffer),
    llrint (last + d') - frame - bbt_offset < nframes ->
    tick_loop fuel d' frame bbt_offset nframes last pb = None.
Proof.
  intro Hd. induction fuel as [ | fuel IH]; intros last pb Hlt.
  - reflexivity.
  - rewrite tick_loop_continue by exact Hlt. apply IH.
    assert (Hle : llrint (last + d' + d') <= llrint (last + d'))
      by (apply llrint_mono; lra).
    lia.
Qed.

End GridTicks.

Section RollingCycle.





(** A cycle that sees Rolling, with clock messages and a tempo, runs the
    loop of the scheduler on what the state machine left. *)
Lemma process_rolling (fuel : nat) (o : options) (s : app_state) (c : cycle)
  (samples_per_beat : Q) (offset : Z) :
  client_state s = Run ->
  cy_xstate c = JackTransportRolling ->
  flag_set (msg_filter o) MSG_NO_CLOCK = false ->
  calc_samples_per_beat o (cy_xpos c) = Some (samples_per_beat, offset) ->
  process fuel o s c
  = match tick_loop fuel (clock_tick_interval samples_per_beat)
            (frame (cy_xpos c)) offset (cy_nframes c)
            (mclk_last_tick (fst (before_scheduler o s c)))
            (snd (before_scheduler o s c)) with
    | None => None
    | Some (t, pb) => Some (set_last_tick (fst (before_scheduler o s c)) t, pb)
    end.
Proof.
  intros Hrun Hc Hclock Hcalc. rewrite process_running by exact Hrun.
  unfold send_clock_ticks. rewrite Hc, Hclock, Hcalc. reflexivity.
Qed.

End RollingCycle.



(** X16. A tempo below zero. A cycle that sees the transport Rolling, with
    clock messages enabled, at a negative number of samples per beat (a
    timebase master that reports a negative tempo: the tempo of the master is
    not checked), and with the next tick before the end of the cycle, as it is
    on every edge into Rolling: no number of turns ends the loop of the
    scheduler; in exact arithmetic the callback does not return. *)
Theorem negative_tempo_never_returns (o : options) (s : app_state)
  (c : cycle) (samples_per_beat : Q) (offset : Z) (fuel : nat) :
  let last :=
    if xstate_eqb (cy_xstate c) (m_xstate s) then mclk_last_tick s
    else inject_Z (frame (cy_xpos c)) in
  client_state s = Run ->
  cy_xstate c = JackTransportRolling ->
  flag_set (msg_filter o) MSG_NO_CLOCK = false ->
  calc_samples_per_beat o (cy_xpos c) = Some (samples_per_beat, offset) ->
  (samples_per_beat < 0)%Q ->
  llrint (last + clock_tick_interval samples_per_beat)
  < frame (cy_xpos c) + offset + cy_nframes c ->
  process fuel o s c = None.
Proof.
  intros last Hrun Hc Hclock Hcalc Hneg Hnext.
  rewrite (process_rolling fuel o s c samples_per_beat offset) by assumption.
  destruct (before_scheduler_state o s c) as (_ & _ & _ & Hl).
  cbv zeta in Hl. fold last in Hl. rewrite Hl.
  rewrite tick_loop_never_ends; [reflexivity | | lia].
  unfold clock_tick_interval, quarter_notes_per_beat.
  assert (E : (samples_per_beat / 1 / 24 == samples_per_beat * (1 # 24))%Q)
    by field.
  rewrite E. lra.
Qed.

(** The transport starts rolling at frame 0 with a master that reports
    -120 BPM. *)
Lemma negative_tempo_never_returns_witness :
  process 1000 default_options initial_state
    (mk_cycle 512 JackTransportRolling (bbt_position 0 (-120) 48000) 16)
  = None.
Proof.
  apply (negative_tempo_never_returns default_options initial_state
           (mk_cycle 512 JackTransportRolling (bbt_position 0 (-120) 48000) 16)
           (inject_Z 48000 * 60 / (-120))%Q 0 1000).
  - reflexivity.
  - reflexivity.
  - reflexivity.
  - reflexivity.
  - reflexivity.
  - vm_compute. reflexivity.
Defined.

(** ** Jitter *)

Section Jitter.


Variables (o : options) (samples_per_beat : Q) (nframes : Z).
Hypothesis tempo_pos : (0 < samples_per_beat)%Q.
Hypothesis nframes_pos : 0 < nframes.
Hypothesis transport_on : flag_set (msg_filter o) MSG_NO_TRANSPORT = false.
Hypothesis clock_on : flag_set (msg_filter o) MSG_NO_CLOCK = false.

Let d : Q := clock_tick_interval samples_per_beat.




End Jitter.



(** ** Ticks per beat *)

Section TicksPerBeat.

Variables (o : options) (samples_per_beat : Q) (nframes : Z).
Hypothesis nframes_pos : 0 < nframes.



End TicksPerBeat.



(** ** The command line of the analyzer *)

Section DumpCommandLine.

Lemma dump_decode_switches_newlines (opts : list getopt_result) :
  forall newline : ascii,
    forallb (fun r => (opt_c r =? "n")%char) opts = true ->
    MclkDump.decode_switches opts newline
    = inr (if given "n" opts then MclkDump.line_feed else newline).
Proof.
  induction opts as [ | r opts IH]; intros newline Hall; [reflexivity | ].
  cbn [forallb] in Hall. apply andb_true_iff in Hall.
  destruct Hall as [Hr Hall].
  unfold given in *. cbn [MclkDump.decode_switches existsb].
  rewrite Hr, (IH _ Hall). cbn [orb].
  destruct (existsb _ opts); reflexivity.
Qed.

Lemma dump_decode_switches_app (pre : list getopt_result) :
  forall (newline : ascii) (post : list getopt_result),
    forallb (fun r => (opt_c r =? "n")%char) pre = true ->
    exists newline',
      MclkDump.decode_switches (pre ++ post) newline
      = MclkDump.decode_switches post newline'.
Proof.
  induction pre as [ | r pre IH]; intros newline post Hall.
  - exists newline. reflexivity.
  - cbn [forallb] in Hall. apply andb_true_iff in Hall.
    destruct Hall as [Hr Hall].
    cbn [app MclkDump.decode_switches]. rewrite Hr. apply IH. exact Hall.
Qed.

End DumpCommandLine.

(** X19. The command line of the analyzer. When every option is [-n],
    [decode_switches] returns, and the character printed after each tick is a
    line feed when [-n] is given and the carriage return of the default
    otherwise. The first option that is not [-n] ends the program, whatever
    comes before and after it: [-V] and [-h] with status 0, anything else with
    [EXIT_FAILURE]. *)
Theorem dump_decode_switches_newline :
  (forall opts : list getopt_result,
      forallb (fun r => (opt_c r =? "n")%char) opts = true ->
      MclkDump.decode_switches opts MclkDump.carriage_return
      = inr (if given "n" opts then MclkDump.line_feed
             else MclkDump.carriage_return)) /\
  (forall (pre post : list getopt_result) (r : getopt_result)
          (newline : ascii),
      forallb (fun r0 => (opt_c r0 =? "n")%char) pre = true ->
      (opt_c r =? "n")%char = false ->
      MclkDump.decode_switches (pre ++ r :: post) newline
      = inl (if ((opt_c r =? "V") || (opt_c r =? "h"))%char then 0
             else EXIT_FAILURE)).
Proof.
  split.
  - intros opts Hall. apply dump_decode_switches_newlines. exact Hall.
  - intros pre post r newline Hpre Hr.
    destruct (dump_decode_switches_app pre newline (r :: post) Hpre)
      as [newline' ->].
    cbn [MclkDump.decode_switches]. rewrite Hr.
    destruct (opt_c r =? "V")%char; [reflexivity | ].
    destruct (opt_c r =? "h")%char; reflexivity.
Qed.

(** [-n -n], and [-n -x]. *)
Lemma dump_decode_switches_newline_witness :
  MclkDump.decode_switches [mk_getopt "n" 0; mk_getopt "n" 0]
    MclkDump.carriage_return
  = inr MclkDump.line_feed /\
  MclkDump.decode_switches ([mk_getopt "n" 0] ++ mk_getopt "?" 0 :: [])
    MclkDump.carriage_return
  = inl EXIT_FAILURE.
Proof.
  split.
  - apply (proj1 dump_decode_switches_newline
             [mk_getopt "n" 0; mk_getopt "n" 0]).
    reflexivity.
  - apply (proj2 dump_decode_switches_newline [mk_getopt "n" 0] []
             (mk_getopt "?" 0) MclkDump.carriage_return); reflexivity.
Defined.

(** ** The analyzer's queue *)

Section Queue.

Import MclkDump.

Lemma clock_byte_test (ev : midi_event) :
  (Z.of_nat (length (ev_data ev)) =? 1) && (nth 0 (ev_data ev) 0 =? 0xf8)
  = is_rt_msg MIDI_RT_CLOCK ev.
Proof.
  unfold is_rt_msg. destruct (ev_data ev) as [ | b [ | b' l]].
  - reflexivity.
  - reflexivity.
  - cbn [length nth]. rewrite andb_false_iff. left. apply Z.eqb_neq. lia.
Qed.

Lemma free_slots_none (rb : jack_ringbuffer_t) :
  jack_ringbuffer_write_space rb < sizeof_timenfo -> free_slots rb = 0%nat.
Proof.
  intro H. unfold free_slots, sizeof_timenfo in *.
  assert (Hq : jack_ringbuffer_write_space rb / 16 < 1)
    by (apply Z.div_lt_upper_bound; lia).
  lia.
Qed.

Lemma free_slots_write (rb : jack_ringbuffer_t) (t : timenfo) :
  sizeof_timenfo <= jack_ringbuffer_write_space rb ->
  free_slots rb = S (free_slots (jack_ringbuffer_write rb t)).
Proof.
  intro H. unfold free_slots, jack_ringbuffer_write_space,
    jack_ringbuffer_read_space, jack_ringbuffer_write, sizeof_timenfo in *.
  cbn [rb_size rb_data]. rewrite length_app. cbn [length].
  set (w := rb_size rb - 16 * Z.of_nat (length (rb_data rb))) in *.
  replace (rb_size rb - 16 * Z.of_nat (length (rb_data rb) + 1))
    with (w - 16) by (unfold w; lia).
  assert (E : w / 16 = (w - 16) / 16 + 1).
  { replace w with ((w - 16) + 1 * 16) at 1 by lia.
    apply Z.div_add. lia. }
  assert (Hq : 0 <= (w - 16) / 16) by (apply Z.div_pos; lia).
  lia.
Qed.

(** The events of a cycle, one after the other. *)
Lemma process_events_queue (cnt : Z) (events : list midi_event) :
  forall rb0 : jack_ringbuffer_t,
    let rb1 :=
      fold_left (fun rb ev => process_jmidi_event ev cnt rb) events rb0 in
    rb_size rb1 = rb_size rb0 /\
    rb_data rb1
    = rb_data rb0 ++ firstn (free_slots rb0) (stamps cnt events).
Proof.
  induction events as [ | ev events IH]; intro rb0; cbn zeta.
  - unfold stamps. simpl. rewrite firstn_nil, app_nil_r. split; reflexivity.
  - cbn [fold_left]. specialize (IH (process_jmidi_event ev cnt rb0)).
    cbn zeta in IH. destruct IH as (Hsize & Hdata).
    rewrite Hsize, Hdata. clear Hsize Hdata.
    unfold process_jmidi_event, stamps. rewrite clock_byte_test.
    cbn [filter]. destruct (is_rt_msg MIDI_RT_CLOCK ev); [ | split; reflexivity].
    cbn [map].
    destruct (jack_ringbuffer_write_space rb0 >=? sizeof_timenfo) eqn:E.
    + apply Z.geb_le in E.
      rewrite (free_slots_write rb0
                 (mk_timenfo 0xf8 (ull (cnt + ev_time ev))) E).
      cbn [firstn].
      cbn [jack_ringbuffer_write rb_size rb_data].
      rewrite <- app_assoc. split; reflexivity.
    + rewrite Z.geb_leb in E. apply Z.leb_gt in E.
      rewrite (free_slots_none rb0 E). cbn [firstn].
      split; reflexivity.
Qed.

Lemma last_app_last (A : Type) (l1 l2 : list A) (d : A) :
  last (l1 ++ l2) d = last l2 (last l1 d).
Proof.
  destruct l2 as [ | a l2]; [rewrite app_nil_r; reflexivity | ].
  induction l1 as [ | b l1 IH]; [apply last_nonempty | ].
  cbn [app]. destruct l1 as [ | b' l1].
  - cbn [app last]. apply last_nonempty.
  - change (last ((b' :: l1) ++ a :: l2) d
            = last (a :: l2) (last (b' :: l1) d)).
    exact IH.
Qed.

Lemma reports_app (j_samplerate : Z) (l1 l2 : list timenfo) :
  forall pt : timenfo,
    reports j_samplerate pt (l1 ++ l2)
    = reports j_samplerate pt l1
      ++ reports j_samplerate (last l1 pt) l2.
Proof.
  induction l1 as [ | t l1 IH]; intro pt; [reflexivity | ].
  cbn [app reports]. rewrite IH, <- app_assoc.
  destruct l1 as [ | t' l1]; [reflexivity | ].
  change (last (t :: t' :: l1) pt) with (last (t' :: l1) pt).
  rewrite (last_nonempty _ l1 t' pt t). reflexivity.
Qed.

(** Draining a queue: every record is read, the last one is remembered,
    the lines are those for the records in their order. *)
Lemma drain_reports (j_samplerate size : Z) (l : list timenfo) :
  forall pt : timenfo,
    drain j_samplerate (length l) pt (mk_ringbuffer size l)
    = (last l pt, mk_ringbuffer size [], reports j_samplerate pt l).
Proof.
  induction l as [ | t l IH]; intro pt; [reflexivity | ].
  cbn [length]. rewrite drain_cons, IH. cbn [reports].
  destruct l as [ | t' l]; [reflexivity | ].
  change (last (t :: t' :: l) pt) with (last (t' :: l) pt).
  rewrite (last_nonempty _ l t' pt t). reflexivity.
Qed.

Lemma reports_at_time (j_samplerate : Z) (l : list timenfo) :
  forall pt : timenfo,
    Forall (fun t => msg t = 0xf8) l ->
    map at_time (reports j_samplerate pt l)
    = map (fun t => as_long_long (tme t)) l.
Proof.
  induction l as [ | t l IH]; intros pt H; [reflexivity | ].
  apply Forall_cons_iff in H. destruct H as [Ht H].
  cbn [reports map]. unfold print_tick at 1. rewrite Ht.
  cbn [Z.eqb Pos.eqb app map at_time]. rewrite (IH t H). reflexivity.
Qed.

End Queue.

(** X20. The producer. One callback of the analyzer, whatever the events of the
    cycle and the state of the queue: the lone clock bytes of the cycle are
    queued behind the records waiting, in their order, each stamped with the
    sample counter plus its offset, as many of them as there are records free;
    the clock bytes after those are dropped, and nothing waiting is
    overwritten; every other event is ignored; the sample counter advances by
    the cycle size in any case. *)
Theorem producer_queues_clocks (nframes : Z) (events : list midi_event)
  (s : MclkDump.dump_state) :
  let s' := MclkDump.process nframes events s in
  MclkDump.rb_data (MclkDump.rb s')
  = MclkDump.rb_data (MclkDump.rb s)
    ++ firstn (free_slots (MclkDump.rb s))
         (stamps (MclkDump.monotonic_cnt s) events) /\
  MclkDump.rb_size (MclkDump.rb s') = MclkDump.rb_size (MclkDump.rb s) /\
  MclkDump.monotonic_cnt s'
  = MclkDump.ull (MclkDump.monotonic_cnt s + nframes).
Proof.
  cbv zeta. unfold MclkDump.process.
  cbn [MclkDump.rb MclkDump.monotonic_cnt].
  destruct (process_events_queue (MclkDump.monotonic_cnt s) events
              (MclkDump.rb s)) as (Hsize & Hdata).
  split; [exact Hdata | split; [exact Hsize | reflexivity]].
Qed.

(** X21. The consumer. One turn of the loop of [main], whatever the queue: it
    reads every record waiting and leaves the queue empty, remembers the last
    record read (the one it remembered before, when nothing was waiting), and
    prints the lines of the records in their order, the first against the
    record remembered, each other against the record ahead of it; the queue
    holding clock records only, that is one line per record, with the record's
    timestamp. *)
Theorem consumer_drains_queue (j_samplerate : Z) (pt : MclkDump.timenfo)
  (rb : MclkDump.jack_ringbuffer_t) :
  MclkDump.main_loop_body j_samplerate pt rb
  = (last (MclkDump.rb_data rb) pt,
     MclkDump.mk_ringbuffer (MclkDump.rb_size rb) [],
     reports j_samplerate pt (MclkDump.rb_data rb)) /\
  (Forall (fun t => MclkDump.msg t = 0xf8) (MclkDump.rb_data rb) ->
   map MclkDump.at_time (reports j_samplerate pt (MclkDump.rb_data rb))
   = map (fun t => MclkDump.as_long_long (MclkDump.tme t))
       (MclkDump.rb_data rb)).
Proof.
  split.
  - unfold MclkDump.main_loop_body. rewrite mqlen_length.
    destruct rb as [size data]. apply drain_reports.
  - apply reports_at_time.
Qed.

(** ** The analyzer, cycle after cycle *)

Section Analyze.

Import MclkDump.

Lemma stamps_length (cnt : Z) (events : list midi_event) :
  (length (stamps cnt events) <= length events)%nat.
Proof. unfold stamps. rewrite length_map. apply filter_length_le. Qed.

Lemma free_slots_empty (size : Z) (rb0 : jack_ringbuffer_t) :
  rb_data rb0 = [] -> rb_size rb0 = size ->
  free_slots (mk_ringbuffer size []) = free_slots rb0.
Proof.
  intros Hdata Hsize. unfold free_slots, jack_ringbuffer_write_space,
    jack_ringbuffer_read_space. rewrite Hdata, Hsize. reflexivity.
Qed.

(** Fed cycle by cycle, no cycle with more events than the empty queue
    takes: the lines are those of all the clock bytes, one after the
    other. *)
Lemma analyze_stamps (j_samplerate : Z) (bufs : list port_buffer) :
  forall (s : dump_state) (pt : timenfo),
    rb_data (rb s) = [] ->
    Forall (fun pb => (length (pb_events pb) <= free_slots (rb s))%nat) bufs ->
    analyze j_samplerate bufs s pt
    = reports j_samplerate pt (all_stamps (monotonic_cnt s) bufs).
Proof.
  induction bufs as [ | pb bufs IH]; intros s pt Hempty Hfit; [reflexivity | ].
  apply Forall_cons_iff in Hfit. destruct Hfit as [Hpb Hfit].
  cbn [analyze all_stamps].
  destruct (process_events_queue (monotonic_cnt s) (pb_events pb) (rb s))
    as (Hsize & Hdata).
  cbv zeta in Hsize, Hdata.
  rewrite Hempty, firstn_all2 in Hdata
    by (pose proof (stamps_length (monotonic_cnt s) (pb_events pb)); lia).
  cbn [app] in Hdata.
  unfold main_loop_body. rewrite mqlen_length.
  unfold process at 1 2. cbn [rb monotonic_cnt].
  destruct (fold_left
              (fun rb0 ev => process_jmidi_event ev (monotonic_cnt s) rb0)
              (pb_events pb) (rb s)) as [size data] eqn:Hq.
  cbn [rb_size rb_data] in Hsize, Hdata |- *. subst data.
  rewrite drain_reports, reports_app.
  apply (f_equal (app _)).
  rewrite IH; cbn [rb monotonic_cnt rb_data].
  - unfold process. reflexivity.
  - reflexivity.
  - rewrite (free_slots_empty size (rb s) Hempty (eq_sym Hsize)). exact Hfit.
Qed.

Lemma all_stamps_msg (bufs : list port_buffer) :
  forall cnt : Z, Forall (fun t => msg t = 0xf8) (all_stamps cnt bufs).
Proof.
  induction bufs as [ | pb bufs IH]; intro cnt; [constructor | ].
  cbn [all_stamps]. apply Forall_app. split; [ | apply IH].
  unfold stamps. apply Forall_map. apply Forall_forall. reflexivity.
Qed.

End Analyze.

(** X22. Every clock byte gets its line. The analyzer with its queue empty, fed
    cycle after cycle, the consumer taking a turn after each, and no cycle with
    more events than the queue has room for: it prints one line for every lone
    clock byte received, in the order received, with the sample counter of the
    byte's cycle plus its offset as timestamp; the tempo of a line is measured
    against the clock byte before, also when that came in an earlier cycle, and
    the first against the record remembered at the start. *)
Theorem analyzer_reports_every_clock (j_samplerate : Z)
  (bufs : list port_buffer) (s : MclkDump.dump_state)
  (pt : MclkDump.timenfo) :
  MclkDump.rb_data (MclkDump.rb s) = [] ->
  Forall (fun pb => (length (pb_events pb) <= free_slots (MclkDump.rb s))%nat)
    bufs ->
  analyze j_samplerate bufs s pt
  = reports j_samplerate pt (all_stamps (MclkDump.monotonic_cnt s) bufs) /\
  map MclkDump.at_time (analyze j_samplerate bufs s pt)
  = map (fun t => MclkDump.as_long_long (MclkDump.tme t))
      (all_stamps (MclkDump.monotonic_cnt s) bufs).
Proof.
  intros Hempty Hfit.
  rewrite (analyze_stamps j_samplerate bufs s pt Hempty Hfit).
  split; [reflexivity | ].
  apply reports_at_time. apply all_stamps_msg.
Qed.

(** Two cycles of 512 samples: a Start and clock bytes at 0 and 500, then
    a clock byte at 488, which is sample 1000. *)
Lemma analyzer_reports_every_clock_witness :
  let bufs :=
    [mk_port_buffer 512 13
       [mk_event 0 [MIDI_RT_START]; clock_byte 0; clock_byte 500];
     mk_port_buffer 512 15 [clock_byte 488]] in
  analyze 48000 bufs analyzer_start MclkDump.pt_zero
  = reports 48000 MclkDump.pt_zero (all_stamps 0 bufs) /\
  map MclkDump.at_time (analyze 48000 bufs analyzer_start MclkDump.pt_zero)
  = [0; 500; 1000].
Proof.
  apply (analyzer_reports_every_clock 48000
           [mk_port_buffer 512 13
              [mk_event 0 [MIDI_RT_START]; clock_byte 0; clock_byte 500];
            mk_port_buffer 512 15 [clock_byte 488]]
           analyzer_start MclkDump.pt_zero).
  - reflexivity.
  - repeat constructor.
Defined.

Section Stalled.

Import MclkDump.

(** Records queued take their room. *)
Lemma free_slots_app (rb0 rb1 : jack_ringbuffer_t) (added : list timenfo) :
  rb_size rb1 = rb_size rb0 ->
  rb_data rb1 = rb_data rb0 ++ added ->
  free_slots rb1 = (free_slots rb0 - length added)%nat.
Proof.
  intros Hsize Hdata. unfold free_slots, jack_ringbuffer_write_space,
    jack_ringbuffer_read_space, sizeof_timenfo.
  rewrite Hsize, Hdata, length_app.
  set (w := rb_size rb0 - 16 * Z.of_nat (length (rb_data rb0))).
  replace (rb_size rb0
           - 16 * Z.of_nat (length (rb_data rb0) + length added))
    with (w + (- Z.of_nat (length added)) * 16) by (unfold w; lia).
  rewrite Z.div_add by lia. lia.
Qed.

Lemma produce_queue (bufs : list port_buffer) :
  forall s : dump_state,
    rb_data (rb (produce bufs s))
    = rb_data (rb s)
      ++ firstn (free_slots (rb s)) (all_stamps (monotonic_cnt s) bufs).
Proof.
  induction bufs as [ | pb bufs IH]; intro s.
  - cbn [produce fold_left all_stamps]. rewrite firstn_nil, app_nil_r.
    reflexivity.
  - unfold produce in *. cbn [fold_left all_stamps]. rewrite IH.
    destruct (process_events_queue (monotonic_cnt s) (pb_events pb) (rb s))
      as (Hsize & Hdata).
    cbv zeta in Hsize, Hdata.
    unfold process at 1 2 3. cbn [rb monotonic_cnt].
    rewrite (free_slots_app (rb s) _ _ Hsize Hdata), Hdata, <- app_assoc.
    apply (f_equal (app _)).
    rewrite firstn_app. apply (f_equal (app _)).
    rewrite !length_firstn.
    replace (free_slots (rb s)
             - Nat.min (free_slots (rb s))
                 (length (stamps (monotonic_cnt s) (pb_events pb))))%nat
      with (free_slots (rb s)
            - length (stamps (monotonic_cnt s) (pb_events pb)))%nat by lia.
    reflexivity.
Qed.

End Stalled.

(** X23. The consumer stalled. Callbacks of the analyzer one after the other
    without a turn of the consumer: the queue keeps what was waiting and takes
    the clock bytes in the order received, across the cycles, until it is full;
    every clock byte after that is lost, and nothing queued is overwritten. The
    queue the program creates takes 31 records: from the start, it holds the
    first 31 clock bytes received. *)
Theorem stalled_consumer_keeps_oldest (bufs : list port_buffer)
  (s : MclkDump.dump_state) :
  MclkDump.rb_data (MclkDump.rb (produce bufs s))
  = MclkDump.rb_data (MclkDump.rb s)
    ++ firstn (free_slots (MclkDump.rb s))
         (all_stamps (MclkDump.monotonic_cnt s) bufs) /\
  MclkDump.rb_data (MclkDump.rb (produce bufs analyzer_start))
  = firstn 31 (all_stamps 0 bufs).
Proof.
  split; [apply produce_queue | ].
  rewrite produce_queue. reflexivity.
Qed.

(** ** From the generator to the analyzer *)

Section RoundTrip.

Import MclkDump.


Variables (o : options) (samples_per_beat : Q) (nframes : Z).
Hypothesis nframes_pos : 0 < nframes.






Hypothesis tempo_pos : (0 < samples_per_beat)%Q.
Hypothesis transport_on : flag_set (msg_filter o) MSG_NO_TRANSPORT = false.
Hypothesis clock_on : flag_set (msg_filter o) MSG_NO_CLOCK = false.

Let d : Q := clock_tick_interval samples_per_beat.


End RoundTrip.



Section MeasuredTempo.

Import MclkDump.




End MeasuredTempo.


